(** * ZeroGuard dashboard: client-side pipeline of the scan result

    A shallow embedding of the dashboard's state wiring and aggregation
    code (Upload, Report, IssueSummary, BestPractices, AIExplanation,
    AIAssistant and the axios client of [utils/api.js]), followed by the
    properties proved about it.

    Conventions.
    - A JavaScript string is a [string]; the case mapping of
      [String.prototype.toLowerCase] is modelled on the ASCII letters
      [A]-[Z] (all literals compared against in the source are ASCII).
    - An optional property ([undefined] when absent) is an [option].
    - A plain object used as a dictionary is a [gmap string _]; the
      properties it inherits from [Object.prototype] are listed
      explicitly where the source reads them through [obj[key]].
    - An [async] function is split at its [await]: the part that runs
      when the handler is invoked, and the part that runs when the
      promise settles. *)

From Stdlib Require Import String Ascii List ZArith Lia Bool Arith.
From stdpp Require Import base option gmap strings list.
Import ListNotations.
Local Open Scope string_scope.

(** ** JavaScript primitives used by the source *)
Module Js.

Definition is_upper (c : ascii) : bool :=
  Nat.leb 65 (nat_of_ascii c) && Nat.leb (nat_of_ascii c) 90.

Definition lower_char (c : ascii) : ascii :=
  if is_upper c then ascii_of_nat (nat_of_ascii c + 32) else c.

(** [s.toLowerCase()]: exact on ASCII text; bytes outside ASCII are
    left as they are. *)
Fixpoint toLowerCase (s : string) : string :=
  match s with
  | EmptyString => EmptyString
  | String c r => String (lower_char c) (toLowerCase r)
  end.

(** [s.includes(t)]: [t] occurs in [s] at some position. *)
Fixpoint includes (s t : string) : bool :=
  String.prefix t s ||
  match s with
  | EmptyString => false
  | String _ r => includes r t
  end.

(** Truthiness of a string value: only [""] is falsy. *)
Definition truthy (s : string) : bool := negb (s =? "")%string.

(** Truthiness of a possibly-undefined string. *)
Definition truthy_opt (o : option string) : bool :=
  match o with
  | Some s => truthy s
  | None => false
  end.

(** [a || b] on possibly-undefined strings. *)
Definition or_opt (a b : option string) : option string :=
  if truthy_opt a then a else b.

(** [a || 'literal'] *)
Definition or_str (a : option string) (b : string) : string :=
  match a with
  | Some s => if truthy s then s else b
  | None => b
  end.

(** [xs || []] for a possibly-absent array. *)
Definition or_nil {A} (xs : option (list A)) : list A :=
  match xs with
  | Some l => l
  | None => []
  end.

(** [lits.includes(v)] for an array of string literals and a
    possibly-undefined string [v]. *)
Definition array_includes (lits : list string) (v : option string) : bool :=
  match v with
  | Some s => existsb (String.eqb s) lits
  | None => false
  end.

(** Own properties of [Object.prototype]: what [({})[k]] finds for a
    key that is not an own property of the object. *)
Definition object_prototype_keys : list string :=
  [ "constructor"; "hasOwnProperty"; "isPrototypeOf";
    "propertyIsEnumerable"; "toLocaleString"; "toString"; "valueOf";
    "__proto__"; "__defineGetter__"; "__defineSetter__";
    "__lookupGetter__"; "__lookupSetter__" ].

Definition inherited (k : string) : bool :=
  existsb (String.eqb k) object_prototype_keys.

(** White space removed by [trim] (ASCII part): tab, line feed,
    vertical tab, form feed, carriage return, space. *)
Definition is_space (c : ascii) : bool :=
  let n := nat_of_ascii c in
  (Nat.leb 9 n && Nat.leb n 13) || Nat.eqb n 32.

Fixpoint all_space (s : string) : bool :=
  match s with
  | EmptyString => true
  | String c r => is_space c && all_space r
  end.

(** [!s.trim()]: the trimmed string is empty. *)
Definition blank (s : string) : bool := all_space s.

Fixpoint before (sep : ascii) (cs : list ascii) : list ascii :=
  match cs with
  | [] => []
  | c :: rest => if Ascii.eqb c sep then [] else c :: before sep rest
  end.

(** [s.split(sep)[0]] for a one-character separator: what precedes
    its first occurrence, the whole string when there is none. *)
Definition split_first (sep : ascii) (s : string) : string :=
  string_of_list_ascii (before sep (list_ascii_of_string s)).

(** A thrown value, as far as a [catch] block reads it. *)
Record Error := mkError { message : option string }.

End Js.

(** ** Data model: the slices of the scan result the views read *)

(** An issue of any of the four categories, with the fields the views
    read. [severity] is the raw string sent by the service. *)
Record Issue := mkIssue {
  message : option string;
  description : option string;
  severity : option string;
  file : option string;
  line : option Z;
  service : option string;
  type : option string
}.

(** The four issue arrays of a scan result, each possibly absent. *)
Record ScanIssues := mkScanIssues {
  syntax_errors : option (list Issue);
  security_issues : option (list Issue);
  logic_conflicts : option (list Issue);
  secrets_detected : option (list Issue)
}.

(** ** JSON documents, [JSON.stringify(value, null, 2)] and [JSON.parse]

    The scan result is the parsed body of the service's response: a
    JSON document. A number, which is finite in a scan result, is
    represented by the decimal literal that [JSON.stringify] prints for
    it; this spares the model the floating-point conversion and
    identifies [-0] with [0]. An object is the list of its members in
    enumeration order, a string is the sequence of its bytes.
    [serialize] follows SerializeJSONProperty of ECMA-262 for these
    values, [parse_value] the JSON grammar. *)
Module Json.

#[local] Unset Elimination Schemes.

Inductive value :=
| Null
| Bool (b : bool)
| Number (literal : string)
| Str (s : string)
| Array (items : list value)
| Object (members : list (string * value)).

#[local] Set Elimination Schemes.

Definition newline : ascii := "010"%char.
Definition dquote : ascii := "034"%char.
Definition backslash : ascii := "092"%char.

(** The [gap] of [JSON.stringify(_, null, 2)]: two spaces. *)
Definition gap : list ascii := [" "; " "]%char.

Definition hex_digit (n : nat) : ascii :=
  ascii_of_nat (if Nat.ltb n 10 then 48 + n else 87 + n).

(** One character of QuoteJSONString. *)
Definition escape (c : ascii) : list ascii :=
  let n := nat_of_ascii c in
  if Nat.eqb n 8 then [backslash; "b"%char]
  else if Nat.eqb n 9 then [backslash; "t"%char]
  else if Nat.eqb n 10 then [backslash; "n"%char]
  else if Nat.eqb n 12 then [backslash; "f"%char]
  else if Nat.eqb n 13 then [backslash; "r"%char]
  else if Nat.eqb n 34 then [backslash; dquote]
  else if Nat.eqb n 92 then [backslash; backslash]
  else if Nat.ltb n 32 then
    [backslash; "u"%char; "0"%char; "0"%char; hex_digit (n / 16); hex_digit (n mod 16)]
  else [c].

(** QuoteJSONString *)
Definition quote (s : string) : list ascii :=
  dquote :: (flat_map escape (list_ascii_of_string s) ++ [dquote])%list.

Fixpoint join (sep : list ascii) (parts : list (list ascii)) : list ascii :=
  match parts with
  | [] => []
  | p :: ps =>
      match ps with
      | [] => p
      | _ :: _ => (p ++ sep ++ join sep ps)%list
      end
  end.

(** SerializeJSONProperty with a non-empty gap; [indent] is the
    current indentation. *)
Fixpoint serialize (indent : list ascii) (v : value) : list ascii :=
  match v with
  | Null => list_ascii_of_string "null"
  | Bool b => list_ascii_of_string (if b then "true" else "false")
  | Number literal => list_ascii_of_string literal
  | Str s => quote s
  | Array items =>
      match items with
      | [] => list_ascii_of_string "[]"
      | _ :: _ =>
          let stepback := indent in
          let indent := (indent ++ gap)%list in
          ("["%char :: newline :: indent
           ++ join (","%char :: newline :: indent) (map (serialize indent) items)
           ++ newline :: stepback ++ ["]"%char])%list
      end
  | Object members =>
      match members with
      | [] => list_ascii_of_string "{}"
      | _ :: _ =>
          let stepback := indent in
          let indent := (indent ++ gap)%list in
          ("{"%char :: newline :: indent
           ++ join (","%char :: newline :: indent)
                (map (fun m => quote (fst m) ++ ":"%char :: " "%char
                               :: serialize indent (snd m)) members)
           ++ newline :: stepback ++ ["}"%char])%list
      end
  end.

(** [JSON.stringify(v, null, 2)] *)
Definition stringify (v : value) : string :=
  string_of_list_ascii (serialize [] v).

(** JSON white space: tab, line feed, carriage return, space. *)
Definition is_ws (c : ascii) : bool :=
  let n := nat_of_ascii c in
  Nat.eqb n 9 || Nat.eqb n 10 || Nat.eqb n 13 || Nat.eqb n 32.

Fixpoint skip_ws (cs : list ascii) : list ascii :=
  match cs with
  | [] => []
  | c :: rest => if is_ws c then skip_ws rest else cs
  end.

Definition is_digit (c : ascii) : bool :=
  Nat.leb 48 (nat_of_ascii c) && Nat.leb (nat_of_ascii c) 57.

(** Characters a number token is made of. *)
Definition is_number_char (c : ascii) : bool :=
  is_digit c
  || existsb (Ascii.eqb c) ["-"; "+"; "."; "e"; "E"]%char.

Fixpoint drop_digits (cs : list ascii) : list ascii :=
  match cs with
  | [] => []
  | c :: rest => if is_digit c then drop_digits rest else cs
  end.

(** The exponent part, or nothing. *)
Definition exponent_ok (cs : list ascii) : bool :=
  match cs with
  | [] => true
  | e :: rest =>
      (Ascii.eqb e "e" || Ascii.eqb e "E")%char
      && match rest with
         | [] => false
         | s :: rest' =>
             let ds := if (Ascii.eqb s "+" || Ascii.eqb s "-")%char then rest' else rest in
             match ds with
             | [] => false
             | _ :: _ => forallb is_digit ds
             end
         end
  end.

(** The fraction part, or nothing, followed by the exponent part. *)
Definition fraction_ok (cs : list ascii) : bool :=
  match cs with
  | c :: rest =>
      if Ascii.eqb c "."%char then
        match rest with
        | d :: rest' => is_digit d && exponent_ok (drop_digits rest')
        | [] => false
        end
      else exponent_ok cs
  | [] => true
  end.

(** The JSON number grammar: an optional minus sign; then a zero, or
    a digit from 1 to 9 and any digits; then optionally a point and
    one digit or more; then optionally [e] or [E], an optional sign
    and one digit or more. *)
Definition number_literal (tok : list ascii) : bool :=
  forallb is_number_char tok
  && let body := match tok with
                 | c :: rest => if Ascii.eqb c "-"%char then rest else tok
                 | [] => tok
                 end in
     match body with
     | [] => false
     | d :: rest =>
         if Ascii.eqb d "0"%char then fraction_ok rest
         else is_digit d && fraction_ok (drop_digits rest)
     end.

Fixpoint span (p : ascii -> bool) (cs : list ascii) : list ascii * list ascii :=
  match cs with
  | [] => ([], [])
  | c :: rest =>
      if p c then let (tok, rest') := span p rest in (c :: tok, rest')
      else ([], cs)
  end.

Definition hex_value (c : ascii) : option nat :=
  let n := nat_of_ascii c in
  if Nat.leb 48 n && Nat.leb n 57 then Some (n - 48)
  else if Nat.leb 97 n && Nat.leb n 102 then Some (n - 87)
  else if Nat.leb 65 n && Nat.leb n 70 then Some (n - 55)
  else None.

(** The character a two-character escape stands for. *)
Definition unescape (e : ascii) : option ascii :=
  if Ascii.eqb e dquote then Some dquote
  else if Ascii.eqb e backslash then Some backslash
  else if Ascii.eqb e "/"%char then Some "/"%char
  else if Ascii.eqb e "b"%char then Some "008"%char
  else if Ascii.eqb e "f"%char then Some "012"%char
  else if Ascii.eqb e "n"%char then Some "010"%char
  else if Ascii.eqb e "r"%char then Some "013"%char
  else if Ascii.eqb e "t"%char then Some "009"%char
  else None.

(** The four hex digits of a [\u] escape, for a code unit in the ASCII
    range; escapes of other code units are outside this model. *)
Definition unicode_escape (a b c d : ascii) : option ascii :=
  match hex_value a, hex_value b, hex_value c, hex_value d with
  | Some x, Some y, Some z, Some w =>
      let n := ((x * 16 + y) * 16 + z) * 16 + w in
      if Nat.ltb n 128 then Some (ascii_of_nat n) else None
  | _, _, _, _ => None
  end.

(** The characters of a string token after its opening quote, up to
    and including the closing quote. *)
Fixpoint parse_string_body (cs : list ascii) : option (string * list ascii) :=
  match cs with
  | [] => None
  | c :: rest =>
      if Ascii.eqb c dquote then Some (EmptyString, rest)
      else if Ascii.eqb c backslash then
        match rest with
        | [] => None
        | e :: rest1 =>
            if Ascii.eqb e "u"%char then
              match rest1 with
              | h1 :: h2 :: h3 :: h4 :: rest2 =>
                  match unicode_escape h1 h2 h3 h4, parse_string_body rest2 with
                  | Some x, Some (s, r) => Some (String x s, r)
                  | _, _ => None
                  end
              | _ => None
              end
            else
              match unescape e, parse_string_body rest1 with
              | Some x, Some (s, r) => Some (String x s, r)
              | _, _ => None
              end
        end
      else if Nat.ltb (nat_of_ascii c) 32 then None
      else
        match parse_string_body rest with
        | Some (s, r) => Some (String c s, r)
        | None => None
        end
  end.

Fixpoint strip_prefix (p cs : list ascii) : option (list ascii) :=
  match p with
  | [] => Some cs
  | a :: p' =>
      match cs with
      | b :: cs' => if Ascii.eqb a b then strip_prefix p' cs' else None
      | [] => None
      end
  end.

(** [null], [true] or [false]. *)
Definition parse_literal (cs : list ascii) : option (value * list ascii) :=
  match strip_prefix (list_ascii_of_string "null") cs with
  | Some rest => Some (Null, rest)
  | None =>
      match strip_prefix (list_ascii_of_string "true") cs with
      | Some rest => Some (Bool true, rest)
      | None =>
          match strip_prefix (list_ascii_of_string "false") cs with
          | Some rest => Some (Bool false, rest)
          | None => None
          end
      end
  end.

Definition parse_number (cs : list ascii) : option (value * list ascii) :=
  let (tok, rest) := span is_number_char cs in
  if number_literal tok then Some (Number (string_of_list_ascii tok), rest)
  else None.

(** CreateDataProperty on the object under construction: a repeated
    key keeps its place and takes the later value. *)
Fixpoint define (k : string) (v : value) (members : list (string * value))
  : list (string * value) :=
  match members with
  | [] => [(k, v)]
  | (k', v') :: rest =>
      if String.eqb k k' then (k, v) :: rest else (k', v') :: define k v rest
  end.

(** Recursive descent; [fuel] bounds the nesting and the number of
    elements read. *)
Fixpoint parse_value (fuel : nat) (cs : list ascii) : option (value * list ascii) :=
  match fuel with
  | 0 => None
  | S fuel' =>
      match skip_ws cs with
      | [] => None
      | c :: rest =>
          if Ascii.eqb c dquote then
            match parse_string_body rest with
            | Some (s, r) => Some (Str s, r)
            | None => None
            end
          else if Ascii.eqb c "["%char then
            match skip_ws rest with
            | [] => None
            | c' :: rest' =>
                if Ascii.eqb c' "]"%char then Some (Array [], rest')
                else
                  match parse_elements fuel' rest with
                  | Some (items, r) => Some (Array items, r)
                  | None => None
                  end
            end
          else if Ascii.eqb c "{"%char then
            match skip_ws rest with
            | [] => None
            | c' :: rest' =>
                if Ascii.eqb c' "}"%char then Some (Object [], rest')
                else
                  match parse_members fuel' rest with
                  | Some (members, r) =>
                      Some (Object (fold_left (fun acc m => define (fst m) (snd m) acc)
                                      members []), r)
                  | None => None
                  end
            end
          else if is_number_char c then parse_number (c :: rest)
          else parse_literal (c :: rest)
      end
  end

with parse_elements (fuel : nat) (cs : list ascii) : option (list value * list ascii) :=
  match fuel with
  | 0 => None
  | S fuel' =>
      match parse_value fuel' cs with
      | None => None
      | Some (v, rest) =>
          match skip_ws rest with
          | [] => None
          | c :: rest' =>
              if Ascii.eqb c ","%char then
                match parse_elements fuel' rest' with
                | Some (vs, r) => Some (v :: vs, r)
                | None => None
                end
              else if Ascii.eqb c "]"%char then Some ([v], rest')
              else None
          end
      end
  end

with parse_members (fuel : nat) (cs : list ascii)
  : option (list (string * value) * list ascii) :=
  match fuel with
  | 0 => None
  | S fuel' =>
      match skip_ws cs with
      | [] => None
      | q :: rest0 =>
          if Ascii.eqb q dquote then
            match parse_string_body rest0 with
            | None => None
            | Some (k, rest1) =>
                match skip_ws rest1 with
                | [] => None
                | colon :: rest2 =>
                    if Ascii.eqb colon ":"%char then
                      match parse_value fuel' rest2 with
                      | None => None
                      | Some (v, rest3) =>
                          match skip_ws rest3 with
                          | [] => None
                          | c :: rest4 =>
                              if Ascii.eqb c ","%char then
                                match parse_members fuel' rest4 with
                                | Some (ms, r) => Some ((k, v) :: ms, r)
                                | None => None
                                end
                              else if Ascii.eqb c "}"%char then Some ([(k, v)], rest4)
                              else None
                          end
                      end
                    else None
                end
            end
          else None
      end
  end.

(** [JSON.parse(text)]: one value, then nothing but white space. *)
Definition parse (text : string) : option value :=
  let cs := list_ascii_of_string text in
  match parse_value (S (length cs)) cs with
  | Some (v, rest) =>
      match skip_ws rest with
      | [] => Some v
      | _ :: _ => None
      end
  | None => None
  end.

(** [object.key] on a parsed document. *)
Definition get (key : string) (v : value) : option value :=
  match v with
  | Object members =>
      match List.find (fun m => String.eqb (fst m) key) members with
      | Some m => Some (snd m)
      | None => None
      end
  | _ => None
  end.

(** Documents a parsed response can be: number literals follow the
    JSON grammar and no object has two members of the same name. *)
Fixpoint wf (v : value) : bool :=
  match v with
  | Null | Bool _ | Str _ => true
  | Number literal => number_literal (list_ascii_of_string literal)
  | Array items => forallb wf items
  | Object members =>
      bool_decide (NoDup (map fst members))
      && forallb (fun m => wf (snd m)) members
  end.

(** Nodes of a document, members and elements counted once more. *)
Fixpoint size (v : value) : nat :=
  match v with
  | Array items => S (list_sum (map (fun x => S (size x)) items))
  | Object members => S (list_sum (map (fun m => S (size (snd m))) members))
  | _ => 1
  end.

End Json.

(** ** [Date.prototype.toISOString] on a time value (milliseconds
    since the epoch, UTC), as ECMA-262 defines it: the date in the
    proleptic Gregorian calendar, the year with four digits from 0 to
    9999 and with a sign and six digits otherwise. The time values of
    valid dates are those within 8.64e15 of the epoch; [new Date()]
    reads one of them. *)
Module JsDate.

Local Open Scope Z_scope.

Definition msPerDay : Z := 86400000.

(** Day number and time within the day. *)
Definition Day (t : Z) : Z := t / msPerDay.
Definition TimeWithinDay (t : Z) : Z := t mod msPerDay.

(** Year, month (1 to 12) and day of the month (1 to 31) of a day
    number in the proleptic Gregorian calendar. *)
Definition civil (day : Z) : Z * Z * Z :=
  let z := day + 719468 in
  let era := z / 146097 in
  let doe := z - era * 146097 in
  let yoe := (doe - doe / 1460 + doe / 36524 - doe / 146096) / 365 in
  let doy := doe - (365 * yoe + yoe / 4 - yoe / 100) in
  let mp := (5 * doy + 2) / 153 in
  let d := doy - (153 * mp + 2) / 5 + 1 in
  let m := if mp <? 10 then mp + 3 else mp - 9 in
  let y := yoe + era * 400 + (if m <=? 2 then 1 else 0) in
  (y, m, d).

Definition YearFromTime (t : Z) : Z := fst (fst (civil (Day t))).
Definition MonthFromTime (t : Z) : Z := snd (fst (civil (Day t))).
Definition DateFromTime (t : Z) : Z := snd (civil (Day t)).
Definition HourFromTime (t : Z) : Z := TimeWithinDay t / 3600000.
Definition MinFromTime (t : Z) : Z := (TimeWithinDay t / 60000) mod 60.
Definition SecFromTime (t : Z) : Z := (TimeWithinDay t / 1000) mod 60.
Definition msFromTime (t : Z) : Z := TimeWithinDay t mod 1000.

Definition digit (n : Z) : ascii := ascii_of_nat (48 + Z.to_nat (n mod 10)).

(** The last [width] decimal digits of [n], zero-padded. *)
Fixpoint pad (width : nat) (n : Z) : list ascii :=
  match width with
  | O => []
  | S w => (pad w (n / 10) ++ [digit n])%list
  end.

(** Four digits for the years 0 to 9999, a sign and six digits for the
    others. *)
Definition year_text (y : Z) : list ascii :=
  if (0 <=? y) && (y <=? 9999) then pad 4 y
  else ((if y <? 0 then "-"%char else "+"%char) :: pad 6 (Z.abs y)).

Definition iso_text (t : Z) : list ascii :=
  (year_text (YearFromTime t)
   ++ "-"%char :: pad 2 (MonthFromTime t)
   ++ "-"%char :: pad 2 (DateFromTime t)
   ++ "T"%char :: pad 2 (HourFromTime t)
   ++ ":"%char :: pad 2 (MinFromTime t)
   ++ ":"%char :: pad 2 (SecFromTime t)
   ++ "."%char :: pad 3 (msFromTime t)
   ++ ["Z"%char])%list.

(** [new Date(t).toISOString()] *)
Definition toISOString (t : Z) : string := string_of_list_ascii (iso_text t).

End JsDate.

(** ** Report.jsx: severity filter and text search *)
Module Report.

(** [filterIssues], closed over the [filter] state. *)
Definition filterIssues (filter : string) (issues : list Issue) : list Issue :=
  if (filter =? "all")%string then issues
  else List.filter
         (fun issue =>
            match severity issue with
            | Some s => (s =? filter)%string
            | None => false
            end) issues.

(** [field && field.toLowerCase().includes(searchTerm.toLowerCase())] *)
Definition field_matches (field : option string) (searchTerm : string) : bool :=
  match field with
  | Some f => Js.truthy f && Js.includes (Js.toLowerCase f) (Js.toLowerCase searchTerm)
  | None => false
  end.

(** [searchIssues], closed over the [searchTerm] state. *)
Definition searchIssues (searchTerm : string) (issues : list Issue) : list Issue :=
  if negb (Js.truthy searchTerm) then issues
  else List.filter
         (fun issue =>
            field_matches (message issue) searchTerm
            || field_matches (description issue) searchTerm
            || field_matches (file issue) searchTerm) issues.

Definition allIssues (scanData : ScanIssues) : list Issue :=
  Js.or_nil (syntax_errors scanData)
  ++ Js.or_nil (security_issues scanData)
  ++ Js.or_nil (logic_conflicts scanData)
  ++ Js.or_nil (secrets_detected scanData).

Definition filteredIssues (filter searchTerm : string) (scanData : ScanIssues) : list Issue :=
  searchIssues searchTerm (filterIssues filter (allIssues scanData)).

(** The file handed to the browser by the click on the generated
    link: the [download] attribute, the type of the [Blob] and its
    text. *)
Record Download := mkDownload {
  download : string;
  blob_type : string;
  content : string
}.

(** [exportReport]; [scanData] is the document as received, [now1] and
    [now2] are what the two [new Date()] read, in that order. *)
Definition exportReport (now1 now2 : Z) (scanData : Json.value) : Download :=
  let reportData :=
    Json.Object [ ("timestamp", Json.Str (JsDate.toISOString now1));
                  ("scan_data", scanData) ] in
  mkDownload
    ("zeroguard-report-"
     ++ Js.split_first "T"%char (JsDate.toISOString now2)
     ++ ".json")
    "application/json"
    (Json.stringify reportData).

End Report.

(** ** IssueSummary.jsx: the Quick Stats tally *)
Module IssueSummary.

Record Category := mkCategory {
  key : string;
  label : string;
  color : string;
  issues : list Issue
}.

Definition categories (issues : ScanIssues) : list Category :=
  [ mkCategory "syntax_errors" "Syntax Errors" "error"
      (Js.or_nil (syntax_errors issues));
    mkCategory "security_issues" "Security Issues" "error"
      (Js.or_nil (security_issues issues));
    mkCategory "logic_conflicts" "Logic Conflicts" "warning"
      (Js.or_nil (logic_conflicts issues));
    mkCategory "secrets_detected" "Secrets Detected" "error"
      (Js.or_nil (secrets_detected issues)) ].

(** [i.severity?.toLowerCase()] *)
Definition severity_lower (i : Issue) : option string :=
  match severity i with
  | Some s => Some (Js.toLowerCase s)
  | None => None
  end.

(** [categories.reduce((sum, cat) => sum + cat.issues.filter(i =>
    lits.includes(i.severity?.toLowerCase())).length, 0)] *)
Definition tally (lits : list string) (issues : ScanIssues) : nat :=
  fold_left
    (fun sum cat =>
       sum + length (List.filter
                       (fun i => Js.array_includes lits (severity_lower i))
                       (IssueSummary.issues cat)))
    (categories issues) 0.

(** The number shown above "Critical/High". *)
Definition criticalHigh (issues : ScanIssues) : nat :=
  tally ["critical"; "high"; "error"] issues.

(** The number shown above "Medium". *)
Definition medium (issues : ScanIssues) : nat :=
  tally ["medium"; "warning"] issues.

End IssueSummary.

(** ** BestPractices.jsx: grouping of the suggestions by category *)
Module BestPractices.

Record Suggestion := mkSuggestion {
  issue : Issue;
  category : option string;
  recommendation : option string
}.

(** [{ ...suggestion, originalIndex: index }] *)
Record Item := mkItem {
  suggestion : Suggestion;
  originalIndex : nat
}.

(** One step of the [reduce] callback. [groups[category]] on a key
    that is not an own property finds what [Object.prototype] has
    under that name: a truthy value without [push], so the callback
    throws a TypeError ([None]). *)
Definition group_step (groups : gmap string (list Item))
    (suggestion : Suggestion) (index : nat) : option (gmap string (list Item)) :=
  let category := Js.or_str (category suggestion) "general" in
  match groups !! category with
  | Some items => Some (<[category := (items ++ [mkItem suggestion index])%list]> groups)
  | None =>
      if Js.inherited category then None
      else Some (<[category := [mkItem suggestion index]]> groups)
  end.

Fixpoint reduce_from (index : nat) (groups : gmap string (list Item))
    (suggestions : list Suggestion) : option (gmap string (list Item)) :=
  match suggestions with
  | [] => Some groups
  | suggestion :: rest =>
      match group_step groups suggestion index with
      | Some groups' => reduce_from (S index) groups' rest
      | None => None
      end
  end.

Definition groupedSuggestions (suggestions : list Suggestion)
  : option (gmap string (list Item)) :=
  reduce_from 0 ∅ suggestions.

Definition categoryOrder : list string :=
  [ "security"; "reliability"; "optimization"; "monitoring";
    "resource_management"; "configuration"; "consistency";
    "documentation"; "organization"; "general" ].

(** [categoryOrder.filter(category => groupedSuggestions[category])]
    paired with the items rendered under each heading. *)
Definition displayedGroups (groups : gmap string (list Item))
  : list (string * list Item) :=
  omap (fun category =>
          match groups !! category with
          | Some items => Some (category, items)
          | None => None
          end) categoryOrder.

(** Number of suggestions rendered, summed over the displayed groups. *)
Definition displayedCount (groups : gmap string (list Item)) : nat :=
  list_sum (map (fun g => length (snd g)) (displayedGroups groups)).

(** The effective category of a suggestion. *)
Definition categoryOf (s : Suggestion) : string :=
  Js.or_str (category s) "general".

End BestPractices.

(** A [File] picked by the user; [text] is what [FileReader.readAsText]
    delivers, [None] when the read fails. *)
Record File := mkFile {
  filename : string;
  text : option string
}.

(** A [FormData] body: the appended parts, in order. *)
Inductive FormValue :=
| FilePart (f : File)
| TextPart (s : string).

Definition FormData := list (string * FormValue).

(** ** utils/api.js: the axios client *)
Module Api.

Record ConfigurationContext := mkContext {
  file : option string;
  line : option Z;
  service : option string;
  type : option string
}.

(** JSON body of [POST /explain]. *)
Record ExplainBody := mkExplainBody {
  issue_description : option string;
  configuration_context : ConfigurationContext;
  mode : string
}.

Inductive Payload :=
| Multipart (formData : FormData)
| Json (body : ExplainBody).

(** An outbound [api.post(url, payload)]. *)
Record Request := mkRequest {
  url : string;
  payload : Payload
}.

(** What the response interceptor's error handler receives. *)
Record ResponseData := mkResponseData { detail : option string }.
Record Response := mkResponse { status : Z; data : option ResponseData }.
Record AxiosError := mkAxiosError {
  response : option Response;
  message : option string
}.

(** [error.response?.data?.detail] *)
Definition response_detail (error : AxiosError) : option string :=
  match response error with
  | Some r =>
      match data r with
      | Some d => detail d
      | None => None
      end
  | None => None
  end.

(** [error.response?.data?.detail || error.message || 'Request failed'] *)
Definition errorMessage (error : AxiosError) : string :=
  Js.or_str (Js.or_opt (response_detail error) (message error)) "Request failed".

(** The rejection handler of [api.interceptors.response]:
    [Promise.reject(new Error(errorMessage))]. *)
Definition on_rejected (error : AxiosError) : Js.Error :=
  Js.mkError (Some (errorMessage error)).

(** The request posted by [scanConfiguration(formData)]. *)
Definition scanConfiguration (formData : FormData) : Request :=
  mkRequest "/scan" (Multipart formData).

(** The request posted by [explainIssue(issueDescription,
    configurationContext, mode = 'devops')]; an omitted argument is
    [None]. *)
Definition explainIssue (issueDescription : option string)
    (configurationContext : ConfigurationContext) (mode : option string) : Request :=
  mkRequest "/explain"
    (Json (mkExplainBody issueDescription configurationContext
             (match mode with Some m => m | None => "devops" end))).

End Api.

(** ** AIExplanation.jsx *)
Module AIExplanation.

(** The request [handleExplainIssue] posts, if any. [explainIssue]
    is called with two arguments: the third is omitted ([None]). *)
Definition handleExplainIssue (selectedIssue : option Issue) : option Api.Request :=
  match selectedIssue with
  | None => None
  | Some issue =>
      Some (Api.explainIssue
              (Js.or_opt (message issue) (description issue))
              (Api.mkContext (file issue) (line issue) (service issue) (type issue))
              None)
  end.

End AIExplanation.

(** ** AIAssistant.jsx *)
Module AIAssistant.

Definition allIssues (scanData : ScanIssues) : list Issue :=
  Js.or_nil (syntax_errors scanData)
  ++ Js.or_nil (security_issues scanData)
  ++ Js.or_nil (logic_conflicts scanData)
  ++ Js.or_nil (secrets_detected scanData).

(** [allIssues.filter(issue => ['critical', 'high'].includes(issue.severity)).slice(0, 3)] *)
Definition mostCritical (scanData : ScanIssues) : list Issue :=
  take 3 (List.filter
            (fun issue => Js.array_includes ["critical"; "high"] (severity issue))
            (allIssues scanData)).

(** The request [handleSendMessage] posts, if any; every other path
    answers from [generateGeneralResponse], which is local.
    [explainIssue] is called with two arguments here too. *)
Definition handleSendMessage (scanData : option ScanIssues) (input : string)
    (isLoading : bool) : option Api.Request :=
  if Js.blank input || isLoading then None
  else
    match scanData with
    | Some data =>
        if Js.includes (Js.toLowerCase input) "issue"
           || Js.includes (Js.toLowerCase input) "problem"
        then
          match mostCritical data with
          | issue :: _ =>
              Some (Api.explainIssue
                      (Js.or_opt (message issue) (description issue))
                      (Api.mkContext (file issue) (line issue) (service issue) (type issue))
                      None)
          | [] => None
          end
        else None
    | None => None
    end.

End AIAssistant.

(** ** Upload.jsx together with the state it writes in App.jsx

    [ScanResult] is the document the scan endpoint returns; the upload
    view stores it without looking inside. *)
Module Upload.
Section WithScanResult.

Variable ScanResult : Type.

(** An entry of the [files] state. *)
Record HeldFile := mkHeldFile {
  file : File;
  content : string;
  name : string
}.

(** The hooks of [App] ([activeTab], [scanData], [isScanning]), the
    hooks of the [Upload] view whose handlers run ([files], [error],
    [mode]) and the [/scan] requests posted and not yet settled. *)
Record State := mkState {
  activeTab : string;
  scanData : option ScanResult;
  isScanning : bool;
  files : gmap string HeldFile;
  error : string;
  mode : string;
  outstanding : list Api.Request
}.

(** [useState] initial values, with the upload view displayed. *)
Definition initial : State :=
  mkState "upload" None false ∅ "" "devops" [].

Definition setActiveTab (t : string) (s : State) : State :=
  mkState t (scanData s) (isScanning s) (files s) (error s) (mode s) (outstanding s).
Definition setScanData (r : ScanResult) (s : State) : State :=
  mkState (activeTab s) (Some r) (isScanning s) (files s) (error s) (mode s) (outstanding s).
Definition setIsScanning (b : bool) (s : State) : State :=
  mkState (activeTab s) (scanData s) b (files s) (error s) (mode s) (outstanding s).
Definition setFiles (f : gmap string HeldFile -> gmap string HeldFile) (s : State)
  : State :=
  mkState (activeTab s) (scanData s) (isScanning s) (f (files s)) (error s) (mode s)
    (outstanding s).
Definition setError (e : string) (s : State) : State :=
  mkState (activeTab s) (scanData s) (isScanning s) (files s) e (mode s) (outstanding s).
Definition setMode (m : string) (s : State) : State :=
  mkState (activeTab s) (scanData s) (isScanning s) (files s) (error s) m (outstanding s).
Definition setOutstanding (rs : list Api.Request) (s : State) : State :=
  mkState (activeTab s) (scanData s) (isScanning s) (files s) (error s) (mode s) rs.

(** [api.post] leaves the client: one more outstanding request. *)
Definition post (r : Api.Request) (s : State) : State :=
  setOutstanding (outstanding s ++ [r]) s.

(** [processFile], with the [FileReader] callback run at once. *)
Definition processFile (f : File) (fileKey : string) (s : State) : State :=
  match text f with
  | Some result =>
      setError "" (setFiles (fun prev => <[fileKey := mkHeldFile f result (filename f)]> prev) s)
  | None => setError "Failed to read file" s
  end.

Definition removeFile (fileKey : string) (s : State) : State :=
  setFiles (fun prev => delete fileKey prev) s.

(** [Object.keys(files).length === 0] *)
Definition noFiles (s : State) : bool := Nat.eqb (size (files s)) 0.

(** [if (files.k) formData.append(k, files.k.file)] *)
Definition append_if_held (k : string) (s : State) (formData : FormData) : FormData :=
  match files s !! k with
  | Some held => (formData ++ [(k, FilePart (file held))])%list
  | None => formData
  end.

(** The [FormData] built inside the [try] block. *)
Definition buildFormData (s : State) : FormData :=
  (append_if_held "env_file" s
     (append_if_held "docker_compose" s
        (append_if_held "dockerfile" s []))
   ++ [("mode", TextPart (mode s))])%list.

(** [handleScan] up to its [await]. *)
Definition handleScan_begin (s : State) : State :=
  if noFiles s then
    setError "Please upload at least one configuration file" s
  else
    let s1 := setError "" (setIsScanning true s) in
    post (Api.scanConfiguration (buildFormData s1)) s1.

(** How [await scanConfiguration(formData)] ends. *)
Inductive Outcome :=
| Resolved (result : ScanResult)
| Rejected (err : Js.Error).

(** [handleScan] after its [await]: the rest of the [try] block or
    the [catch] block, then the [finally] block. *)
Definition handleScan_settled (o : Outcome) (s : State) : State :=
  let s1 :=
    match o with
    | Resolved result => setActiveTab "dashboard" (setScanData result s)
    | Rejected err => setError (Js.or_str (Js.message err) "Scan failed. Please try again.") s
    end in
  setIsScanning false s1.

(** The [n]-th outstanding request settles and the handler that
    awaits it resumes. *)
Definition settle (n : nat) (o : Outcome) (s : State) : State :=
  match outstanding s !! n with
  | Some _ => handleScan_settled o (setOutstanding (delete n (outstanding s)) s)
  | None => s
  end.

(** One invocation of [handleScan] run to completion with no other
    event in between; [o] is how its own request ends. *)
Definition handleScan (o : Outcome) (s : State) : State :=
  settle (length (outstanding s)) o (handleScan_begin s).

(** The Start Analysis button: [disabled={Object.keys(files).length === 0}]. *)
Definition startDisabled (s : State) : bool := noFiles s.

(** What can happen to the displayed upload view. *)
Inductive Event :=
| SelectFile (fileKey : string) (f : File)
| RemoveFile (fileKey : string)
| ChooseMode (m : string)
| ClickStart
| Settle (n : nat) (o : Outcome).

Definition step (s : State) (e : Event) : State :=
  match e with
  | SelectFile fileKey f => processFile f fileKey s
  | RemoveFile fileKey => removeFile fileKey s
  | ChooseMode m => setMode m s
  | ClickStart => if startDisabled s then s else handleScan_begin s
  | Settle n o => settle n o s
  end.

Definition run (es : list Event) (s : State) : State := fold_left step es s.

End WithScanResult.

Arguments mkState {ScanResult}.
Arguments activeTab {ScanResult} s.
Arguments scanData {ScanResult} s.
Arguments isScanning {ScanResult} s.
Arguments files {ScanResult} s.
Arguments error {ScanResult} s.
Arguments mode {ScanResult} s.
Arguments outstanding {ScanResult} s.
Arguments initial {ScanResult}.
Arguments setActiveTab {ScanResult} t s.
Arguments setScanData {ScanResult} r s.
Arguments setIsScanning {ScanResult} b s.
Arguments setFiles {ScanResult} f s.
Arguments setError {ScanResult} e s.
Arguments setMode {ScanResult} m s.
Arguments setOutstanding {ScanResult} rs s.
Arguments post {ScanResult} r s.
Arguments processFile {ScanResult} f fileKey s.
Arguments removeFile {ScanResult} fileKey s.
Arguments noFiles {ScanResult} s.
Arguments append_if_held {ScanResult} k s formData.
Arguments buildFormData {ScanResult} s.
Arguments handleScan_begin {ScanResult} s.
Arguments handleScan_settled {ScanResult} o s.
Arguments settle {ScanResult} n o s.
Arguments handleScan {ScanResult} o s.
Arguments startDisabled {ScanResult} s.
Arguments step {ScanResult} s e.
Arguments run {ScanResult} es s.
Arguments Resolved {ScanResult} result.
Arguments Rejected {ScanResult} err.
Arguments SelectFile {ScanResult} fileKey f.
Arguments RemoveFile {ScanResult} fileKey.
Arguments ChooseMode {ScanResult} m.
Arguments ClickStart {ScanResult}.
Arguments Settle {ScanResult} n o.

End Upload.

(** ** Vocabulary of the statements *)
Module Spec.

(** [u] is an upper-case ASCII letter and [l] the same letter in
    lower case. *)
Definition letter_pair (u l : ascii) : Prop :=
  exists k, k < 26 /\ nat_of_ascii u = 65 + k /\ nat_of_ascii l = 97 + k.

(** Equality of characters up to the case of ASCII letters. *)
Definition char_eq_ci (a b : ascii) : Prop :=
  a = b \/ letter_pair a b \/ letter_pair b a.

(** Equality of strings up to the case of ASCII letters. *)
Inductive eq_ci : string -> string -> Prop :=
| eq_ci_nil : eq_ci "" ""
| eq_ci_cons a b s t :
    char_eq_ci a b -> eq_ci s t -> eq_ci (String a s) (String b t).

(** [t] occurs in [s], up to case. *)
Definition substring_ci (t s : string) : Prop :=
  exists pre mid post, s = pre ++ mid ++ post /\ eq_ci mid t.

(** The severity of [i] is one of [lits], up to case. *)
Definition severity_among (lits : list string) (i : Issue) : Prop :=
  exists s w, severity i = Some s /\ In w lits /\ eq_ci s w.

(** The search term occurs, up to case, in the message, the
    description or the file of [i]. *)
Definition term_matches (term : string) (i : Issue) : Prop :=
  (exists m, message i = Some m /\ substring_ci term m)
  \/ (exists d, description i = Some d /\ substring_ci term d)
  \/ (exists f, file i = Some f /\ substring_ci term f).

(** The suggestions paired with their positions, counted from [index]. *)
Fixpoint items_from (index : nat) (suggestions : list BestPractices.Suggestion)
  : list BestPractices.Item :=
  match suggestions with
  | [] => []
  | s :: rest => BestPractices.mkItem s index :: items_from (S index) rest
  end.

(** The items of category [c], in their order. *)
Definition group_of (c : string) (items : list BestPractices.Item)
  : list BestPractices.Item :=
  List.filter
    (fun it => String.eqb (BestPractices.categoryOf (BestPractices.suggestion it)) c)
    items.

(** The items grouped under [c]; none when there is no such group. *)
Definition items_at (groups : gmap string (list BestPractices.Item)) (c : string)
  : list BestPractices.Item :=
  default [] (groups !! c).

(** The category has a heading in the display order. *)
Definition listed (s : BestPractices.Suggestion) : bool :=
  existsb (String.eqb (BestPractices.categoryOf s)) BestPractices.categoryOrder.

(** The grouping does not throw on the category of [s]. *)
Definition groupable (s : BestPractices.Suggestion) : Prop :=
  Js.inherited (BestPractices.categoryOf s) = false.

(** The text after a printed value does not go on with a character a
    number is made of. *)
Definition delimited (rest : list ascii) : Prop :=
  match rest with
  | [] => True
  | c :: _ => Json.is_number_char c = false
  end.

(** Printed at any indentation, after any white space and before any
    delimited text, [v] is read back by a parser with enough fuel. *)
Definition reads_back (v : Json.value) : Prop :=
  forall (indent ws rest : list ascii) (fuel : nat),
    forallb Json.is_ws indent = true ->
    forallb Json.is_ws ws = true ->
    delimited rest ->
    Json.size v <= fuel ->
    Json.parse_value fuel (ws ++ Json.serialize indent v ++ rest)%list
    = Some (v, rest).

(** [text] has the shape of [pattern]: a [d] stands for any decimal
    digit, any other character for itself. *)
Fixpoint shaped (pattern text : list ascii) : bool :=
  match pattern, text with
  | [], [] => true
  | p :: ps, c :: cs =>
      (if Ascii.eqb p "d"%char then Json.is_digit c else Ascii.eqb p c)
      && shaped ps cs
  | _, _ => false
  end.

(** The extended ISO 8601 form of a UTC instant: the year with four
    digits, or with a sign and six digits. *)
Definition iso8601 (s : string) : bool :=
  shaped (list_ascii_of_string "dddd-dd-ddTdd:dd:dd.dddZ") (list_ascii_of_string s)
  || shaped (list_ascii_of_string "+dddddd-dd-ddTdd:dd:dd.dddZ") (list_ascii_of_string s)
  || shaped (list_ascii_of_string "-dddddd-dd-ddTdd:dd:dd.dddZ") (list_ascii_of_string s).

(** A calendar date, [YYYY-MM-DD]. *)
Definition iso_date (s : string) : bool :=
  shaped (list_ascii_of_string "dddd-dd-dd") (list_ascii_of_string s).

(** The year of the instant is written with four digits. *)
Definition four_digit_year (t : Z) : Prop :=
  (0 <= JsDate.YearFromTime t <= 9999)%Z.

End Spec.

(** * Properties *)

(** ** The model on concrete inputs *)

Example toISOString_epoch :
  JsDate.toISOString 0 = "1970-01-01T00:00:00.000Z"
  /\ JsDate.toISOString (-1) = "1969-12-31T23:59:59.999Z"
  /\ JsDate.toISOString 951782400000 = "2000-02-29T00:00:00.000Z"
  /\ JsDate.toISOString 1700000000000 = "2023-11-14T22:13:20.000Z"
  /\ JsDate.toISOString 253402300800000 = "+010000-01-01T00:00:00.000Z".
Proof. repeat split; vm_compute; reflexivity. Qed.

Example stringify_indents :
  Json.stringify
    (Json.Object [ ("a", Json.Array [Json.Number "1"; Json.Null]);
                   ("b", Json.Object []) ])
  = string_of_list_ascii
      (list_ascii_of_string "{" ++ [Json.newline]
       ++ list_ascii_of_string "  " ++ Json.quote "a" ++ list_ascii_of_string ": ["
       ++ [Json.newline]
       ++ list_ascii_of_string "    1," ++ [Json.newline]
       ++ list_ascii_of_string "    null" ++ [Json.newline]
       ++ list_ascii_of_string "  ]," ++ [Json.newline]
       ++ list_ascii_of_string "  " ++ Json.quote "b" ++ list_ascii_of_string ": {}"
       ++ [Json.newline]
       ++ list_ascii_of_string "}")%list.
Proof. vm_compute. reflexivity. Qed.

Example parse_accepts_and_rejects :
  Json.parse "{ 1 }" = None
  /\ Json.parse "[1, 2 ,3 ] " = Some (Json.Array [Json.Number "1"; Json.Number "2"; Json.Number "3"])
  /\ Json.parse "[1,]" = None
  /\ Json.parse "01" = None
  /\ Json.parse "[-0.5e+3, true, null]"
     = Some (Json.Array [Json.Number "-0.5e+3"; Json.Bool true; Json.Null]).
Proof. repeat split; vm_compute; reflexivity. Qed.

Example grouping_throws_on_prototype_key :
  BestPractices.groupedSuggestions
    [ BestPractices.mkSuggestion
        (mkIssue (Some "m") None None None None None None)
        (Some "constructor") None ]
  = None.
Proof. reflexivity. Qed.

(** ** Strings *)

Lemma is_upper_true (c : ascii) :
  Js.is_upper c = true <-> 65 <= nat_of_ascii c <= 90.
Proof.
  unfold Js.is_upper. rewrite andb_true_iff, !Nat.leb_le. tauto.
Qed.

Lemma is_upper_false (c : ascii) :
  Js.is_upper c = false <-> nat_of_ascii c < 65 \/ 90 < nat_of_ascii c.
Proof.
  unfold Js.is_upper. rewrite andb_false_iff, !Nat.leb_gt. tauto.
Qed.

Lemma nat_of_lower_char (c : ascii) :
  nat_of_ascii (Js.lower_char c)
  = if Js.is_upper c then nat_of_ascii c + 32 else nat_of_ascii c.
Proof.
  unfold Js.lower_char. destruct (Js.is_upper c) eqn:E; [|reflexivity].
  apply is_upper_true in E. apply nat_ascii_embedding. lia.
Qed.

Lemma nat_of_ascii_inj (a b : ascii) : nat_of_ascii a = nat_of_ascii b -> a = b.
Proof.
  intros H. rewrite <- (ascii_nat_embedding a), <- (ascii_nat_embedding b).
  now rewrite H.
Qed.

Lemma lower_char_eq_iff (a b : ascii) :
  Js.lower_char a = Js.lower_char b <-> Spec.char_eq_ci a b.
Proof.
  split.
  - intros H. apply (f_equal nat_of_ascii) in H.
    rewrite !nat_of_lower_char in H.
    destruct (Js.is_upper a) eqn:Ea, (Js.is_upper b) eqn:Eb.
    + left. apply nat_of_ascii_inj. lia.
    + right; left. apply is_upper_true in Ea.
      exists (nat_of_ascii a - 65). lia.
    + right; right. apply is_upper_true in Eb.
      exists (nat_of_ascii b - 65). lia.
    + left. now apply nat_of_ascii_inj.
  - intros [-> | [[k (Hk & Hu & Hl)] | [k (Hk & Hu & Hl)]]]; [reflexivity| |];
      apply nat_of_ascii_inj; rewrite !nat_of_lower_char.
    + assert (Js.is_upper a = true) as -> by (apply is_upper_true; lia).
      assert (Js.is_upper b = false) as -> by (apply is_upper_false; lia).
      lia.
    + assert (Js.is_upper b = true) as -> by (apply is_upper_true; lia).
      assert (Js.is_upper a = false) as -> by (apply is_upper_false; lia).
      lia.
Qed.

Lemma toLowerCase_eq_iff (s t : string) :
  Js.toLowerCase s = Js.toLowerCase t <-> Spec.eq_ci s t.
Proof.
  split.
  - revert t. induction s as [|a s IH]; intros [|b t] H; simpl in H;
      try discriminate.
    + constructor.
    + injection H as Hc Hr. constructor.
      * now apply lower_char_eq_iff.
      * now apply IH.
  - induction 1 as [|a b s t Hc _ IH]; simpl; [reflexivity|].
    f_equal; [now apply lower_char_eq_iff | exact IH].
Qed.

Lemma toLowerCase_app (s t : string) :
  Js.toLowerCase (s ++ t) = Js.toLowerCase s ++ Js.toLowerCase t.
Proof.
  induction s as [|c s IH]; simpl; [reflexivity|]. now rewrite IH.
Qed.

(** A split of the lower-cased string comes from a split of the string. *)
Lemma toLowerCase_split (s x y : string) :
  Js.toLowerCase s = x ++ y ->
  exists a b, s = a ++ b /\ Js.toLowerCase a = x /\ Js.toLowerCase b = y.
Proof.
  revert s. induction x as [|c x IH]; intros s H; simpl in H.
  - exists "", s. auto.
  - destruct s as [|d s]; simpl in H; [discriminate|].
    injection H as Hc Hr. destruct (IH _ Hr) as (a & b & -> & Ha & Hb).
    exists (String d a), b. simpl. rewrite Hc, Ha. auto.
Qed.

Lemma prefix_true_iff (t s : string) :
  String.prefix t s = true <-> exists post, s = t ++ post.
Proof.
  revert s. induction t as [|c t IH]; intros s.
  - split; [intros _; now exists s | intros _; now destruct s].
  - destruct s as [|d s]; simpl.
    + split; [discriminate | intros [post H]; discriminate].
    + destruct (ascii_dec c d) as [->|Hne].
      * rewrite IH. split; intros [post H]; exists post.
        -- now rewrite H.
        -- now injection H.
      * split; [discriminate | intros [post H]; injection H; congruence].
Qed.

Lemma includes_true_iff (s t : string) :
  Js.includes s t = true <-> exists pre post, s = pre ++ t ++ post.
Proof.
  induction s as [|c s IH]; cbn [Js.includes].
  - rewrite orb_false_r, prefix_true_iff. split.
    + intros [post H]. now exists "", post.
    + intros (pre & post & H). destruct pre; simpl in H; [now exists post|discriminate].
  - rewrite orb_true_iff, prefix_true_iff, IH. split.
    + intros [[post H] | (pre & post & H)].
      * now exists "", post.
      * exists (String c pre), post. simpl. now rewrite H.
    + intros (pre & post & H). destruct pre as [|d pre]; simpl in H.
      * left. now exists post.
      * right. injection H as _ H. now exists pre, post.
Qed.

(** The search predicate of the source decides [substring_ci]. *)
Lemma includes_lower_iff (f term : string) :
  Js.includes (Js.toLowerCase f) (Js.toLowerCase term) = true
  <-> Spec.substring_ci term f.
Proof.
  rewrite includes_true_iff. split.
  - intros (pre & post & H).
    apply toLowerCase_split in H as (a & b & -> & Ha & Hb).
    apply toLowerCase_split in Hb as (m & p & -> & Hm & Hp).
    exists a, m, p. split; [reflexivity|]. now apply toLowerCase_eq_iff.
  - intros (pre & mid & post & -> & Hci).
    apply toLowerCase_eq_iff in Hci.
    exists (Js.toLowerCase pre), (Js.toLowerCase post).
    now rewrite !toLowerCase_app, Hci.
Qed.

(** ** Report: severity filter and search *)

Lemma filterIssues_not_all (s : string) (issues : list Issue) :
  s <> "all" ->
  Report.filterIssues s issues
  = List.filter (fun i => bool_decide (severity i = Some s)) issues.
Proof.
  intros Hs. unfold Report.filterIssues.
  destruct (String.eqb_spec s "all") as [->|_]; [congruence|].
  apply List.filter_ext. intros i. destruct (severity i) as [x|].
  - destruct (String.eqb_spec x s) as [->|Hne].
    + now rewrite bool_decide_eq_true_2.
    + rewrite bool_decide_eq_false_2; congruence.
  - now rewrite bool_decide_eq_false_2.
Qed.

(** C6. [filterIssues] with the filter set to one of "critical",
    "high", "medium", "low" keeps, in their order, exactly the issues
    whose [severity] is that very string (case-sensitive); with the
    filter set to "all" it returns its input. *)
Theorem filterIssues_exact (s : string) (issues : list Issue) :
  In s ["critical"; "high"; "medium"; "low"] ->
  Report.filterIssues "all" issues = issues
  /\ (exists keep : Issue -> bool,
        (forall i, keep i = true <-> severity i = Some s)
        /\ Report.filterIssues s issues = List.filter keep issues)
  /\ (forall i, In i (Report.filterIssues s issues)
                <-> In i issues /\ severity i = Some s).
Proof.
  intros Hs.
  assert (s <> "all") as Hne.
  { simpl in Hs. intuition (subst; discriminate). }
  split; [reflexivity|]. split.
  - exists (fun i => bool_decide (severity i = Some s)). split.
    + intros i. apply bool_decide_eq_true.
    + now apply filterIssues_not_all.
  - intros i. rewrite filterIssues_not_all by assumption.
    rewrite List.filter_In, bool_decide_eq_true. reflexivity.
Qed.

Lemma filterIssues_exact_witness :
  let issues :=
    [ mkIssue (Some "root user") None (Some "critical") None None None None;
      mkIssue (Some "latest tag") None (Some "Critical") None None None None;
      mkIssue (Some "no healthcheck") None (Some "low") None None None None ] in
  Report.filterIssues "critical" issues
  = [ mkIssue (Some "root user") None (Some "critical") None None None None ]
  /\ forall i, In i (Report.filterIssues "critical" issues)
               <-> In i issues /\ severity i = Some "critical".
Proof.
  intros issues. split; [reflexivity|].
  apply (filterIssues_exact "critical" issues). simpl. auto.
Defined.

Lemma truthy_true_iff (s : string) : Js.truthy s = true <-> s <> "".
Proof.
  unfold Js.truthy. destruct (String.eqb_spec s ""); simpl; split; congruence.
Qed.

Lemma substring_ci_nonempty (term s : string) :
  term <> "" -> Spec.substring_ci term s -> s <> "".
Proof.
  intros Ht (pre & mid & post & -> & Hci) He.
  destruct pre; [|discriminate]. destruct mid; [|discriminate].
  inversion Hci; subst; congruence.
Qed.

Lemma field_matches_iff (field : option string) (term : string) :
  term <> "" ->
  Report.field_matches field term = true
  <-> exists f, field = Some f /\ Spec.substring_ci term f.
Proof.
  intros Ht. unfold Report.field_matches. destruct field as [f|].
  - rewrite andb_true_iff, truthy_true_iff, includes_lower_iff. split.
    + intros [_ H]. eauto.
    + intros (f' & [= <-] & H). split; [|assumption].
      now apply (substring_ci_nonempty term).
  - split; [discriminate | intros (f & [=] & _)].
Qed.



(** ** IssueSummary: the Quick Stats tally *)

Lemma array_includes_lower_iff (lits : list string) (i : Issue) :
  Forall (fun w => Js.toLowerCase w = w) lits ->
  Js.array_includes lits (IssueSummary.severity_lower i) = true
  <-> Spec.severity_among lits i.
Proof.
  intros Hlow. unfold IssueSummary.severity_lower, Spec.severity_among.
  destruct (severity i) as [s|]; simpl.
  - rewrite existsb_exists. split.
    + intros (w & Hw & E). apply String.eqb_eq in E.
      exists s, w. repeat split; [assumption|].
      apply toLowerCase_eq_iff. rewrite E.
      rewrite List.Forall_forall in Hlow. symmetry. now apply Hlow.
    + intros (s' & w & [= <-] & Hw & Hci). exists w. split; [assumption|].
      apply String.eqb_eq. apply toLowerCase_eq_iff in Hci. rewrite Hci.
      rewrite List.Forall_forall in Hlow. now apply Hlow.
  - split; [discriminate | intros (s & w & [=] & _)].
Qed.

Lemma tally_allIssues (lits : list string) (issues : ScanIssues) :
  IssueSummary.tally lits issues
  = length (List.filter
              (fun i => Js.array_includes lits (IssueSummary.severity_lower i))
              (Report.allIssues issues)).
Proof.
  unfold IssueSummary.tally, IssueSummary.categories, Report.allIssues. simpl.
  rewrite !List.filter_app, !List.length_app. lia.
Qed.


Example quick_stats_mixed_case :
  let issues :=
    mkScanIssues
      (Some [ mkIssue (Some "bad instruction") None (Some "ERROR") None None None None ])
      (Some [ mkIssue (Some "root user") None (Some "High") None None None None;
              mkIssue (Some "open port") None (Some "low") None None None None ])
      None
      (Some [ mkIssue (Some "token") None (Some "Warning") None None None None;
              mkIssue (Some "key") None None None None None None ]) in
  IssueSummary.criticalHigh issues = 2 /\ IssueSummary.medium issues = 1.
Proof. split; reflexivity. Qed.

(** ** BestPractices: grouping by category *)

Section Grouping.
Import BestPractices.
Local Open Scope list_scope.

Lemma group_step_items groups s index groups' :
  group_step groups s index = Some groups' ->
  forall c, Spec.items_at groups' c
            = Spec.items_at groups c ++ Spec.group_of c [mkItem s index].
Proof.
  unfold group_step, Spec.items_at, Spec.group_of, categoryOf. simpl.
  set (cat := Js.or_str (category s) "general").
  intros H c.
  assert (groups' = <[cat := (Spec.items_at groups cat ++ [mkItem s index])%list]> groups)
    as ->.
  { unfold Spec.items_at. destruct (groups !! cat) as [items|].
    - now injection H as <-.
    - destruct (Js.inherited cat); [discriminate|]. now injection H as <-. }
  unfold Spec.items_at. destruct (String.eqb_spec cat c) as [->|Hne].
  - now rewrite lookup_insert_eq.
  - rewrite lookup_insert_ne by assumption. now rewrite app_nil_r.
Qed.

Lemma group_of_app c l1 l2 :
  Spec.group_of c (l1 ++ l2) = Spec.group_of c l1 ++ Spec.group_of c l2.
Proof. apply List.filter_app. Qed.

Lemma reduce_from_items suggestions : forall index groups groups',
  reduce_from index groups suggestions = Some groups' ->
  forall c, Spec.items_at groups' c
            = Spec.items_at groups c ++ Spec.group_of c (Spec.items_from index suggestions).
Proof.
  induction suggestions as [|s rest IH]; intros index groups groups' H c; simpl in H.
  - injection H as <-. simpl. now rewrite app_nil_r.
  - destruct (group_step groups s index) as [g1|] eqn:E1; [|discriminate].
    rewrite (IH _ _ _ H c), (group_step_items _ _ _ _ E1 c).
    rewrite <- app_assoc, <- group_of_app. reflexivity.
Qed.

Lemma reduce_from_total suggestions : forall index groups,
  Forall Spec.groupable suggestions ->
  is_Some (reduce_from index groups suggestions).
Proof.
  induction suggestions as [|s rest IH]; intros index groups Hall; simpl.
  - eauto.
  - apply Forall_cons in Hall as [Hs Hrest].
    unfold group_step. fold (categoryOf s).
    destruct (groups !! categoryOf s); [now apply IH|].
    unfold Spec.groupable in Hs. rewrite Hs. now apply IH.
Qed.

Lemma displayedGroups_sum (groups : gmap string (list Item)) (cs : list string) :
  list_sum
    (map (fun g : string * list Item => length (snd g))
       (omap (fun category =>
                match groups !! category with
                | Some items => Some (category, items)
                | None => None
                end) cs))
  = list_sum (map (fun c => length (Spec.items_at groups c)) cs).
Proof.
  induction cs as [|c cs IH]; [reflexivity|].
  cbn [omap list_omap map]. unfold Spec.items_at at 1.
  destruct (groups !! c) as [items|]; unfold list_sum in *;
    cbn [map fold_right snd default]; now rewrite IH.
Qed.

Lemma existsb_eqb_false (k : string) (cs : list string) :
  k ∉ cs -> existsb (String.eqb k) cs = false.
Proof.
  intros Hk. apply not_true_is_false. rewrite existsb_exists.
  intros (x & Hx & E). apply String.eqb_eq in E. subst x.
  apply Hk. now apply list_elem_of_In.
Qed.

Lemma group_sum_count (cs : list string) (items : list Item) :
  NoDup cs ->
  list_sum (map (fun c => length (Spec.group_of c items)) cs)
  = length (List.filter
              (fun it => existsb (String.eqb (categoryOf (suggestion it))) cs)
              items).
Proof.
  induction 1 as [|c cs Hc Hnd IH]; simpl.
  - induction items; simpl; auto.
  - rewrite IH. clear IH Hnd.
    induction items as [|it items IHi]; simpl; [reflexivity|].
    unfold Spec.group_of in *. simpl.
    destruct (String.eqb_spec (categoryOf (suggestion it)) c) as [->|Hne]; simpl.
    + rewrite (existsb_eqb_false _ _ Hc). simpl. now rewrite <- IHi.
    + destruct (existsb _ cs); simpl; rewrite <- IHi; lia.
Qed.

Lemma filter_items_from (P : Suggestion -> bool) suggestions : forall index,
  length (List.filter (fun it => P (suggestion it)) (Spec.items_from index suggestions))
  = length (List.filter P suggestions).
Proof.
  induction suggestions as [|s rest IH]; intros index; simpl; [reflexivity|].
  destruct (P s); simpl; now rewrite IH.
Qed.

Lemma categoryOrder_NoDup : NoDup categoryOrder.
Proof. apply (bool_decide_unpack _). vm_compute. exact I. Qed.

Lemma displayedCount_listed suggestions groups :
  groupedSuggestions suggestions = Some groups ->
  displayedCount groups = length (List.filter Spec.listed suggestions).
Proof.
  intros H. unfold displayedCount, displayedGroups.
  rewrite displayedGroups_sum.
  rewrite (map_ext _ (fun c => length (Spec.group_of c (Spec.items_from 0 suggestions)))).
  2:{ intros c. now rewrite (reduce_from_items _ _ _ _ H c). }
  rewrite (group_sum_count _ _ categoryOrder_NoDup).
  apply (filter_items_from Spec.listed).
Qed.

Lemma In_items_from s suggestions : forall index,
  In s suggestions ->
  exists i, In (mkItem s i) (Spec.items_from index suggestions).
Proof.
  induction suggestions as [|x rest IH]; intros index Hin; simpl in *;
    [contradiction|].
  destruct Hin as [->|Hin].
  - eauto.
  - destruct (IH (S index) Hin) as [i Hi]. eauto.
Qed.

Lemma grouped_under_category suggestions groups s :
  groupedSuggestions suggestions = Some groups ->
  In s suggestions ->
  exists items i, groups !! categoryOf s = Some items /\ In (mkItem s i) items.
Proof.
  intros H Hin. destruct (In_items_from s suggestions 0 Hin) as [i Hi].
  pose proof (reduce_from_items _ _ _ _ H (categoryOf s)) as Hc.
  unfold Spec.items_at in Hc. rewrite lookup_empty in Hc. simpl in Hc.
  assert (In (mkItem s i) (default [] (groups !! categoryOf s))) as Hmem.
  { rewrite Hc. unfold Spec.group_of. apply List.filter_In. split; [assumption|].
    simpl. apply String.eqb_refl. }
  destruct (groups !! categoryOf s) as [items|]; simpl in Hmem; [|contradiction].
  eauto.
Qed.

Lemma categoryOf_absent s :
  category s = None \/ category s = Some "" -> categoryOf s = "general".
Proof. unfold categoryOf. now intros [-> | ->]. Qed.

Lemma categoryOf_present s c :
  category s = Some c -> c <> "" -> categoryOf s = c.
Proof.
  unfold categoryOf. intros -> Hc. simpl.
  apply truthy_true_iff in Hc. now rewrite Hc.
Qed.

End Grouping.




(** ** The axios client: error messages and explain requests *)

Lemma or_str_nonempty (a : option string) (b : string) :
  b <> "" -> Js.or_str a b <> "".
Proof.
  intros Hb. unfold Js.or_str. destruct a as [s|]; [|assumption].
  destruct (Js.truthy s) eqn:E; [|assumption]. now apply truthy_true_iff.
Qed.




(** C10. Whatever the issue, the question or the scan result, the
    request posted by either explanation view is [explainIssue] called
    without its third argument, so it goes to [/explain] with [mode]
    equal to the default, "devops"; neither view reads the mode chosen
    in the upload view. *)
Theorem explain_mode_is_devops (r : Api.Request) :
  (exists selectedIssue, AIExplanation.handleExplainIssue selectedIssue = Some r)
  \/ (exists scanData input isLoading,
        AIAssistant.handleSendMessage scanData input isLoading = Some r) ->
  (exists issueDescription configurationContext,
     r = Api.explainIssue issueDescription configurationContext None)
  /\ exists body,
       Api.url r = "/explain" /\ Api.payload r = Api.Json body
       /\ Api.mode body = "devops".
Proof.
  intros [[selectedIssue H] | (scanData & input & isLoading & H)].
  - destruct selectedIssue as [issue|]; [|discriminate].
    injection H as <-. split; [eexists _, _; reflexivity|].
    eexists. repeat split.
  - unfold AIAssistant.handleSendMessage in H.
    destruct (Js.blank input || isLoading); [discriminate|].
    destruct scanData as [data|]; [|discriminate].
    destruct (_ || _); [|discriminate].
    destruct (AIAssistant.mostCritical data) as [|issue rest]; [discriminate|].
    injection H as <-. split; [eexists _, _; reflexivity|].
    eexists. repeat split.
Qed.

Lemma explain_mode_is_devops_witness :
  let issue := mkIssue (Some "Container runs as root") None (Some "critical")
                 (Some "Dockerfile") (Some 3%Z) None (Some "security") in
  let data := mkScanIssues None (Some [issue]) None None in
  exists r body,
    AIAssistant.handleSendMessage (Some data) "Explain this issue" false = Some r
    /\ Api.url r = "/explain" /\ Api.payload r = Api.Json body
    /\ Api.mode body = "devops".
Proof.
  intros issue data. eexists.
  pose proof (explain_mode_is_devops
                (Api.explainIssue (Some "Container runs as root")
                   (Api.mkContext (Some "Dockerfile") (Some 3%Z) None (Some "security"))
                   None)) as H.
  destruct H as (_ & body & Hu & Hp & Hm).
  - right. exists (Some data), "Explain this issue", false. reflexivity.
  - exists body. split; [reflexivity|]. auto.
Defined.

(** ** Upload: the scan trigger *)

Section UploadProperties.
Import Upload.
Local Open Scope list_scope.
Context {ScanResult : Type}.
Implicit Types (s : State ScanResult) (o : Outcome ScanResult).

Lemma noFiles_true_iff s : noFiles s = true <-> files s = ∅.
Proof.
  unfold noFiles. rewrite Nat.eqb_eq. apply map_size_empty_iff.
Qed.

Lemma delete_last {A} (l : list A) (x : A) : delete (length l) (l ++ [x]) = l.
Proof. induction l as [|y l IH]; simpl; [reflexivity|]. now rewrite IH. Qed.

Lemma handleScan_begin_held s :
  noFiles s = false ->
  handleScan_begin s
  = post (Api.scanConfiguration (buildFormData s))
      (setError "" (setIsScanning true s)).
Proof. unfold handleScan_begin. now intros ->. Qed.

Lemma handleScan_begin_empty s :
  noFiles s = true ->
  handleScan_begin s = setError "Please upload at least one configuration file" s.
Proof. unfold handleScan_begin. now intros ->. Qed.

(** A click on the enabled button posts one more request, whether or
    not a scan is under way. *)
Lemma click_posts s :
  noFiles s = false ->
  outstanding (step s ClickStart)
  = outstanding s ++ [Api.scanConfiguration (buildFormData s)].
Proof.
  intros H. simpl. unfold startDisabled. rewrite H.
  now rewrite handleScan_begin_held.
Qed.

(** What the resumed handler leaves behind, from any state. *)
Lemma settle_outcome s n o :
  is_Some (outstanding s !! n) ->
  isScanning (settle n o s) = false
  /\ outstanding (settle n o s) = delete n (outstanding s)
  /\ files (settle n o s) = files s
  /\ mode (settle n o s) = mode s
  /\ match o with
     | Resolved result =>
         scanData (settle n o s) = Some result
         /\ activeTab (settle n o s) = "dashboard"
         /\ error (settle n o s) = error s
     | Rejected err =>
         error (settle n o s)
         = Js.or_str (Js.message err) "Scan failed. Please try again."
         /\ error (settle n o s) <> ""
         /\ scanData (settle n o s) = scanData s
         /\ activeTab (settle n o s) = activeTab s
     end.
Proof.
  intros [r Hr]. unfold settle. rewrite Hr. destruct o as [result|err]; simpl.
  - repeat split.
  - repeat split. now apply or_str_nonempty.
Qed.

Lemma handleScan_unfold s o :
  noFiles s = false ->
  handleScan o s
  = handleScan_settled o (setError "" (setIsScanning true s)).
Proof.
  intros H. unfold handleScan, settle. rewrite (handleScan_begin_held s H).
  simpl. rewrite list_lookup_middle by reflexivity.
  now rewrite delete_last.
Qed.

End UploadProperties.



(** C4. With no file held, [handleScan] only shows "Please upload at
    least one configuration file": it posts nothing and leaves
    [isScanning] and the stored result as they are; the button, being
    disabled, posts nothing either. *)
Theorem handleScan_without_files (ScanResult : Type)
    (s : Upload.State ScanResult) (o : Upload.Outcome ScanResult) :
  Upload.files s = ∅ ->
  Upload.handleScan_begin s
  = Upload.setError "Please upload at least one configuration file" s
  /\ Upload.handleScan o s
     = Upload.setError "Please upload at least one configuration file" s
  /\ Upload.error (Upload.handleScan o s)
     = "Please upload at least one configuration file"
  /\ Upload.outstanding (Upload.handleScan o s) = Upload.outstanding s
  /\ Upload.outstanding (Upload.step s Upload.ClickStart) = Upload.outstanding s.
Proof.
  intros H. apply noFiles_true_iff in H.
  assert (Upload.handleScan o s
          = Upload.setError "Please upload at least one configuration file" s) as E.
  { unfold Upload.handleScan, Upload.settle.
    rewrite (handleScan_begin_empty s H). simpl.
    now rewrite lookup_ge_None_2. }
  rewrite E, (handleScan_begin_empty s H).
  repeat split. simpl. unfold Upload.startDisabled. now rewrite H.
Qed.

Lemma handleScan_without_files_witness :
  Upload.files (Upload.initial : Upload.State string) = ∅
  /\ Upload.outstanding
       (Upload.handleScan (Upload.Resolved "unused") (Upload.initial : Upload.State string))
     = [].
Proof.
  split; [reflexivity|].
  apply (handleScan_without_files string Upload.initial (Upload.Resolved "unused")).
  reflexivity.
Defined.

(** C1 fails on the code: with a file held, a second click on Start
    Analysis while the first scan is in flight posts a second request.
    The button is disabled only when no file is held. *)
Theorem second_click_posts_again (ScanResult : Type) :
  let held := mkFile "Dockerfile" (Some "FROM alpine") in
  let scanning : Upload.State ScanResult :=
    Upload.run [Upload.SelectFile "dockerfile" held; Upload.ClickStart]
      Upload.initial in
  Upload.isScanning scanning = true
  /\ length (Upload.outstanding scanning) = 1
  /\ Upload.startDisabled scanning = false
  /\ Upload.isScanning (Upload.step scanning Upload.ClickStart) = true
  /\ length (Upload.outstanding (Upload.step scanning Upload.ClickStart)) = 2.
Proof. intros held scanning. repeat split. Qed.

(** ** Export: [JSON.parse] reads back what [JSON.stringify] prints *)

Section JsonRoundTrip.
Import Json.
Local Open Scope list_scope.

Lemma value_ind (P : value -> Prop) :
  P Null ->
  (forall b, P (Bool b)) ->
  (forall literal, P (Number literal)) ->
  (forall s, P (Str s)) ->
  (forall items, Forall P items -> P (Array items)) ->
  (forall members, Forall (fun m => P (snd m)) members -> P (Object members)) ->
  forall v, P v.
Proof.
  intros HNull HBool HNumber HStr HArray HObject.
  fix IH 1. intros [| b | literal | s | items | members].
  - exact HNull.
  - apply HBool.
  - apply HNumber.
  - apply HStr.
  - apply HArray. induction items as [|x xs IHxs]; constructor; [apply IH | exact IHxs].
  - apply HObject. induction members as [|[k x] ms IHms]; constructor;
      [apply IH | exact IHms].
Qed.

Lemma skip_ws_blank (ws cs : list ascii) :
  forallb is_ws ws = true -> skip_ws (ws ++ cs) = skip_ws cs.
Proof.
  induction ws as [|c ws IH]; simpl; [reflexivity|].
  intros H. apply andb_true_iff in H as [Hc Hws]. rewrite Hc. now apply IH.
Qed.

Lemma skip_ws_stop (c : ascii) (cs : list ascii) :
  is_ws c = false -> skip_ws (c :: cs) = c :: cs.
Proof. simpl. now intros ->. Qed.

(** A character of the string, escaped, reads back as itself. *)
Lemma parse_string_escape (c : ascii) (rest : list ascii) :
  parse_string_body (escape c ++ rest)
  = match parse_string_body rest with
    | Some (s, r) => Some (String c s, r)
    | None => None
    end.
Proof.
  destruct c as [[|] [|] [|] [|] [|] [|] [|] [|]]; reflexivity.
Qed.

Lemma parse_string_quoted (s : string) (rest : list ascii) :
  parse_string_body (flat_map escape (list_ascii_of_string s) ++ dquote :: rest)
  = Some (s, rest).
Proof.
  induction s as [|c s IH]; [reflexivity|].
  cbn [list_ascii_of_string flat_map]. rewrite <- app_assoc.
  now rewrite parse_string_escape, IH.
Qed.

Lemma span_all (p : ascii -> bool) (tok rest : list ascii) :
  forallb p tok = true ->
  match rest with [] => True | c :: _ => p c = false end ->
  span p (tok ++ rest) = (tok, rest).
Proof.
  intros Htok Hrest. induction tok as [|c tok IH]; simpl.
  - destruct rest as [|c rest]; [reflexivity|]. simpl. now rewrite Hrest.
  - simpl in Htok. apply andb_true_iff in Htok as [Hc Htok].
    now rewrite Hc, (IH Htok).
Qed.

Lemma number_char_dispatch (c : ascii) :
  is_number_char c = true ->
  is_ws c = false /\ Ascii.eqb c dquote = false
  /\ Ascii.eqb c "["%char = false /\ Ascii.eqb c "{"%char = false
  /\ Ascii.eqb c "]"%char = false.
Proof.
  destruct c as [[|] [|] [|] [|] [|] [|] [|] [|]];
    intros H; try discriminate H; repeat split.
Qed.

Lemma number_literal_inv (tok : list ascii) :
  number_literal tok = true ->
  forallb is_number_char tok = true
  /\ exists c r, tok = c :: r /\ is_number_char c = true.
Proof.
  unfold number_literal. intros H. apply andb_true_iff in H as [Hall Hg].
  split; [exact Hall|]. destruct tok as [|c r]; [discriminate|].
  exists c, r. split; [reflexivity|].
  simpl in Hall. now apply andb_true_iff in Hall as [Hc _].
Qed.

Lemma parse_number_literal (literal : string) (rest : list ascii) :
  number_literal (list_ascii_of_string literal) = true ->
  Spec.delimited rest ->
  parse_number (list_ascii_of_string literal ++ rest) = Some (Number literal, rest).
Proof.
  intros Hlit Hrest. unfold parse_number.
  destruct (number_literal_inv _ Hlit) as [Hall _].
  rewrite (span_all _ _ _ Hall Hrest), Hlit.
  now rewrite string_of_list_ascii_of_string.
Qed.

Lemma serialize_array_text indent x xs rest :
  serialize indent (Array (x :: xs)) ++ rest
  = "["%char
    :: (newline :: indent ++ gap)
    ++ join (","%char :: newline :: indent ++ gap)
         (map (serialize (indent ++ gap)) (x :: xs))
    ++ newline :: indent ++ "]"%char :: rest.
Proof.
  cbn [serialize]. cbn [app]. rewrite <- !app_assoc. cbn [app].
  rewrite <- !app_assoc. reflexivity.
Qed.

Lemma serialize_object_text indent m ms rest :
  serialize indent (Object (m :: ms)) ++ rest
  = "{"%char
    :: (newline :: indent ++ gap)
    ++ join (","%char :: newline :: indent ++ gap)
         (map (fun m => quote (fst m) ++ ":"%char :: " "%char
                        :: serialize (indent ++ gap) (snd m)) (m :: ms))
    ++ newline :: indent ++ "}"%char :: rest.
Proof.
  cbn [serialize]. cbn [app]. rewrite <- !app_assoc. cbn [app].
  rewrite <- !app_assoc. reflexivity.
Qed.

Lemma blank_indent indent :
  forallb is_ws indent = true -> forallb is_ws (newline :: indent ++ gap) = true.
Proof.
  intros H. cbn [forallb]. rewrite forallb_app, H. reflexivity.
Qed.

(** A printed value starts with a character that is neither white
    space nor a closing bracket. *)
Lemma serialize_head indent v :
  wf v = true ->
  exists c r, serialize indent v = c :: r
              /\ is_ws c = false /\ Ascii.eqb c "]"%char = false.
Proof.
  destruct v as [| [|] | literal | s | [|x xs] | [|m ms]]; intros Hwf;
    try (eexists _, _; repeat split; fail).
  cbn [wf] in Hwf. cbn [serialize].
  destruct (number_literal_inv _ Hwf) as (_ & c & r & -> & Hc).
  exists c, r. destruct (number_char_dispatch c Hc) as (? & _ & _ & _ & ?). auto.
Qed.

Lemma parse_value_S fuel cs :
  parse_value (S fuel) cs
  = match skip_ws cs with
    | [] => None
    | c :: rest =>
        if Ascii.eqb c dquote then
          match parse_string_body rest with
          | Some (s, r) => Some (Str s, r)
          | None => None
          end
        else if Ascii.eqb c "["%char then
          match skip_ws rest with
          | [] => None
          | c' :: rest' =>
              if Ascii.eqb c' "]"%char then Some (Array [], rest')
              else
                match parse_elements fuel rest with
                | Some (items, r) => Some (Array items, r)
                | None => None
                end
          end
        else if Ascii.eqb c "{"%char then
          match skip_ws rest with
          | [] => None
          | c' :: rest' =>
              if Ascii.eqb c' "}"%char then Some (Object [], rest')
              else
                match parse_members fuel rest with
                | Some (members, r) =>
                    Some (Object (fold_left (fun acc m => define (fst m) (snd m) acc)
                                    members []), r)
                | None => None
                end
          end
        else if is_number_char c then parse_number (c :: rest)
        else parse_literal (c :: rest)
    end.
Proof. reflexivity. Qed.

Lemma parse_elements_S fuel cs :
  parse_elements (S fuel) cs
  = match parse_value fuel cs with
    | None => None
    | Some (v, rest) =>
        match skip_ws rest with
        | [] => None
        | c :: rest' =>
            if Ascii.eqb c ","%char then
              match parse_elements fuel rest' with
              | Some (vs, r) => Some (v :: vs, r)
              | None => None
              end
            else if Ascii.eqb c "]"%char then Some ([v], rest')
            else None
        end
    end.
Proof. reflexivity. Qed.

Lemma parse_members_S fuel cs :
  parse_members (S fuel) cs
  = match skip_ws cs with
    | [] => None
    | q :: rest0 =>
        if Ascii.eqb q dquote then
          match parse_string_body rest0 with
          | None => None
          | Some (k, rest1) =>
              match skip_ws rest1 with
              | [] => None
              | colon :: rest2 =>
                  if Ascii.eqb colon ":"%char then
                    match parse_value fuel rest2 with
                    | None => None
                    | Some (v, rest3) =>
                        match skip_ws rest3 with
                        | [] => None
                        | c :: rest4 =>
                            if Ascii.eqb c ","%char then
                              match parse_members fuel rest4 with
                              | Some (ms, r) => Some ((k, v) :: ms, r)
                              | None => None
                              end
                            else if Ascii.eqb c "}"%char then Some ([(k, v)], rest4)
                            else None
                        end
                    end
                  else None
              end
          end
        else None
    end.
Proof. reflexivity. Qed.

Lemma skip_ws_to_close (close : list ascii) (c : ascii) (rest : list ascii) :
  forallb is_ws close = true -> is_ws c = false ->
  skip_ws (newline :: close ++ c :: rest) = c :: rest.
Proof.
  intros Hclose Hc.
  change (newline :: close ++ c :: rest) with ((newline :: close) ++ c :: rest).
  rewrite skip_ws_blank by (cbn [forallb]; now rewrite Hclose).
  now apply skip_ws_stop.
Qed.

Lemma join_map_one {A} sep (f : A -> list ascii) a : join sep (map f [a]) = f a.
Proof. reflexivity. Qed.

Lemma join_map_more {A} sep (f : A -> list ascii) a b bs :
  join sep (map f (a :: b :: bs)) = f a ++ sep ++ join sep (map f (b :: bs)).
Proof. reflexivity. Qed.

(** The elements of a printed array are read back one after the other. *)
Lemma parse_elements_joined (indent : list ascii) :
  forallb is_ws indent = true ->
  forall xs,
    Forall Spec.reads_back xs -> xs <> [] ->
    forall ws close rest fuel,
      forallb is_ws ws = true -> forallb is_ws close = true ->
      list_sum (map (fun x => S (size x)) xs) <= fuel ->
      parse_elements fuel
        (ws ++ join (","%char :: newline :: indent) (map (serialize indent) xs)
            ++ newline :: close ++ "]"%char :: rest)
      = Some (xs, rest).
Proof.
  intros Hind. induction xs as [|x xs IH];
    intros Hall Hne ws close rest fuel Hws Hclose Hfuel; [congruence|].
  apply Forall_cons in Hall as [Hx Hxs].
  cbn [map] in Hfuel.
  change (list_sum (?a :: ?l)) with (a + list_sum l) in Hfuel.
  destruct fuel as [|fuel]; [lia|]. rewrite parse_elements_S.
  destruct xs as [|y ys].
  - rewrite join_map_one.
    rewrite (Hx indent ws _ fuel Hind Hws); [|reflexivity|lia].
    rewrite skip_ws_to_close by (assumption || reflexivity). reflexivity.
  - rewrite join_map_more. rewrite <- !app_assoc.
    rewrite (Hx indent ws _ fuel Hind Hws); [|reflexivity|lia].
    cbn [app]. rewrite skip_ws_stop by reflexivity.
    change (Ascii.eqb ","%char ","%char) with true. cbv iota.
    change (newline :: indent ++ ?t) with ((newline :: indent) ++ t).
    rewrite (IH Hxs); [reflexivity|congruence| |assumption|lia].
    cbn [forallb]. now rewrite Hind.
Qed.

Lemma member_text k v indent rest :
  (quote k ++ ":"%char :: " "%char :: serialize indent v) ++ rest
  = dquote :: flat_map escape (list_ascii_of_string k)
    ++ dquote :: ":"%char :: [" "%char] ++ serialize indent v ++ rest.
Proof.
  unfold quote. cbn [app]. rewrite <- !app_assoc. reflexivity.
Qed.

(** A member of a printed object: its name, the colon, its value. *)
Lemma parse_member_text k v indent ws rest fuel :
  Spec.reads_back v ->
  forallb is_ws indent = true -> forallb is_ws ws = true ->
  Spec.delimited rest -> size v <= fuel ->
  exists rest0,
    skip_ws (ws ++ (quote k ++ ":"%char :: " "%char :: serialize indent v) ++ rest)
    = dquote :: rest0
    /\ parse_string_body rest0
       = Some (k, ":"%char :: [" "%char] ++ serialize indent v ++ rest)
    /\ parse_value fuel ([" "%char] ++ serialize indent v ++ rest) = Some (v, rest).
Proof.
  intros Hv Hind Hws Hrest Hfuel. rewrite member_text.
  eexists. split; [|split].
  - rewrite skip_ws_blank by assumption. now apply skip_ws_stop.
  - apply parse_string_quoted.
  - now apply Hv.
Qed.

(** The members of a printed object are read back one after the other. *)
Lemma parse_members_joined (indent : list ascii) :
  forallb is_ws indent = true ->
  forall ms,
    Forall (fun m => Spec.reads_back (snd m)) ms -> ms <> [] ->
    forall ws close rest fuel,
      forallb is_ws ws = true -> forallb is_ws close = true ->
      list_sum (map (fun m => S (size (snd m))) ms) <= fuel ->
      parse_members fuel
        (ws ++ join (","%char :: newline :: indent)
                 (map (fun m => quote (fst m) ++ ":"%char :: " "%char
                                :: serialize indent (snd m)) ms)
            ++ newline :: close ++ "}"%char :: rest)
      = Some (ms, rest).
Proof.
  intros Hind. induction ms as [|[k v] ms IH];
    intros Hall Hne ws close rest fuel Hws Hclose Hfuel; [congruence|].
  apply Forall_cons in Hall as [Hv Hms]. cbn [snd] in Hv.
  cbn [map snd] in Hfuel.
  change (list_sum (?a :: ?l)) with (a + list_sum l) in Hfuel.
  destruct fuel as [|fuel]; [lia|]. rewrite parse_members_S.
  destruct ms as [|m ms].
  - rewrite join_map_one. cbn [fst snd].
    destruct (parse_member_text k v indent ws (newline :: close ++ "}"%char :: rest) fuel)
      as (rest0 & -> & Hkey & Hval); [assumption..|reflexivity|lia|].
    rewrite Ascii.eqb_refl, Hkey. rewrite skip_ws_stop by reflexivity.
    change (Ascii.eqb ":"%char ":"%char) with true. cbv iota.
    rewrite Hval. rewrite skip_ws_to_close by (assumption || reflexivity).
    reflexivity.
  - rewrite join_map_more. cbn [fst snd].
    rewrite <- (app_assoc _ _ (newline :: close ++ "}"%char :: rest)).
    rewrite <- (app_assoc (","%char :: newline :: indent)).
    destruct (parse_member_text k v indent ws
                ((","%char :: newline :: indent)
                 ++ join (","%char :: newline :: indent)
                      (map (fun m => quote (fst m) ++ ":"%char :: " "%char
                                     :: serialize indent (snd m)) (m :: ms))
                 ++ newline :: close ++ "}"%char :: rest) fuel)
      as (rest0 & -> & Hkey & Hval); [assumption..|reflexivity|lia|].
    rewrite Ascii.eqb_refl, Hkey. rewrite skip_ws_stop by reflexivity.
    change (Ascii.eqb ":"%char ":"%char) with true. cbv iota.
    rewrite Hval. cbn [app]. rewrite skip_ws_stop by reflexivity.
    change (Ascii.eqb ","%char ","%char) with true. cbv iota.
    change (newline :: indent ++ ?t) with ((newline :: indent) ++ t).
    rewrite (IH Hms); [reflexivity|congruence| |assumption|lia].
    cbn [forallb]. now rewrite Hind.
Qed.

Lemma define_fresh k v (ms : list (string * value)) :
  k ∉ map fst ms -> define k v ms = ms ++ [(k, v)].
Proof.
  induction ms as [|[k' v'] ms IH]; intros Hk; [reflexivity|].
  cbn [define map fst] in *. apply not_elem_of_cons in Hk as [Hne Hk].
  destruct (String.eqb_spec k k') as [->|_]; [congruence|].
  now rewrite (IH Hk).
Qed.

Lemma fold_define (ms acc : list (string * value)) :
  NoDup (map fst (acc ++ ms)) ->
  fold_left (fun acc m => define (fst m) (snd m) acc) ms acc = acc ++ ms.
Proof.
  revert acc. induction ms as [|[k v] ms IH]; intros acc Hnd; cbn [fold_left].
  - now rewrite app_nil_r.
  - cbn [fst snd]. rewrite define_fresh.
    + rewrite IH; rewrite <- app_assoc; [reflexivity | exact Hnd].
    + rewrite map_app in Hnd. apply NoDup_app in Hnd as (_ & Hdisj & _).
      intros Hin. apply (Hdisj k Hin). cbn [map fst]. left.
Qed.

Lemma join_map_head {A} sep (f : A -> list ascii) a l :
  exists tail, join sep (map f (a :: l)) = f a ++ tail.
Proof.
  destruct l as [|b l].
  - exists []. rewrite join_map_one. now rewrite app_nil_r.
  - eexists. apply join_map_more.
Qed.

Lemma skip_ws_head ws text rest c r :
  forallb is_ws ws = true -> text = c :: r -> is_ws c = false ->
  skip_ws (ws ++ text ++ rest) = c :: r ++ rest.
Proof.
  intros Hws -> Hc. rewrite skip_ws_blank by assumption.
  now apply skip_ws_stop.
Qed.

(** [JSON.parse] reads back every well-formed document that
    [JSON.stringify] prints. *)
Lemma wf_reads_back (v : value) : wf v = true -> Spec.reads_back v.
Proof.
  induction v as [| b | literal | s | items IH | members IH] using value_ind;
    intros Hwf indent ws rest fuel Hind Hws Hrest Hfuel;
    (destruct fuel as [|fuel]; [cbn [size] in Hfuel; lia|]);
    rewrite parse_value_S, skip_ws_blank by assumption.
  - reflexivity.
  - destruct b; reflexivity.
  - cbn [wf] in Hwf. cbn [serialize].
    destruct (number_literal_inv _ Hwf) as (_ & c & r & Hcr & Hc).
    destruct (number_char_dispatch c Hc) as (Hw & Hq & Hb & Ho & _).
    rewrite Hcr. cbn [app]. rewrite skip_ws_stop by assumption.
    rewrite Hq, Hb, Ho, Hc.
    change (c :: r ++ rest) with ((c :: r) ++ rest). rewrite <- Hcr.
    now apply parse_number_literal.
  - cbn [serialize]. unfold quote. cbn [app]. rewrite <- app_assoc. cbn [app].
    rewrite skip_ws_stop by reflexivity. rewrite Ascii.eqb_refl.
    now rewrite parse_string_quoted.
  - destruct items as [|x xs]; [reflexivity|].
    cbn [wf] in Hwf. rewrite serialize_array_text.
    rewrite skip_ws_stop by reflexivity.
    change (Ascii.eqb "["%char dquote) with false.
    change (Ascii.eqb "["%char "["%char) with true. cbv iota.
    assert (Forall Spec.reads_back (x :: xs)) as Hall.
    { apply Forall_forall. intros y Hy.
      rewrite Forall_forall in IH. apply (IH y Hy).
      rewrite forallb_forall in Hwf. apply Hwf. now apply list_elem_of_In. }
    assert (wf x = true) as Hx.
    { cbn [forallb] in Hwf. now apply andb_true_iff in Hwf as [Hx _]. }
    destruct (join_map_head (","%char :: newline :: indent ++ gap)
                (serialize (indent ++ gap)) x xs) as [tail Htail].
    destruct (serialize_head (indent ++ gap) x Hx) as (c & r & Hcr & Hcw & Hcb).
    rewrite Hcr in Htail. cbn [app] in Htail.
    rewrite (skip_ws_head _ _ _ c (r ++ tail) (blank_indent indent Hind) Htail Hcw).
    rewrite Hcb.
    rewrite (parse_elements_joined (indent ++ gap)); try assumption.
    + reflexivity.
    + rewrite forallb_app, Hind. reflexivity.
    + congruence.
    + now apply blank_indent.
    + cbn [size] in Hfuel. lia.
  - destruct members as [|[k x] ms]; [reflexivity|].
    cbn [wf] in Hwf. apply andb_true_iff in Hwf as [Hnd Hwf].
    apply bool_decide_eq_true in Hnd.
    rewrite serialize_object_text.
    rewrite skip_ws_stop by reflexivity.
    change (Ascii.eqb "{"%char dquote) with false.
    change (Ascii.eqb "{"%char "["%char) with false.
    change (Ascii.eqb "{"%char "{"%char) with true. cbv iota.
    assert (Forall (fun m => Spec.reads_back (snd m)) ((k, x) :: ms)) as Hall.
    { apply Forall_forall. intros m Hm.
      rewrite Forall_forall in IH. apply (IH m Hm).
      rewrite forallb_forall in Hwf. apply Hwf. now apply list_elem_of_In. }
    destruct (join_map_head (","%char :: newline :: indent ++ gap)
                (fun m => quote (fst m) ++ ":"%char :: " "%char
                          :: serialize (indent ++ gap) (snd m)) (k, x) ms)
      as [tail Htail].
    unfold quote at 2 in Htail. cbn [fst app] in Htail.
    rewrite (skip_ws_head _ _ _ dquote _ (blank_indent indent Hind) Htail eq_refl).
    change (Ascii.eqb dquote "}"%char) with false. cbv iota.
    rewrite (parse_members_joined (indent ++ gap)); try assumption.
    + now rewrite (fold_define _ [] Hnd).
    + rewrite forallb_app, Hind. reflexivity.
    + congruence.
    + now apply blank_indent.
    + cbn [size] in Hfuel. lia.
Qed.

Lemma sum_le_join {A} (f : A -> list ascii) (g : A -> nat) sep (l : list A) :
  1 <= length sep ->
  Forall (fun a => g a <= length (f a)) l ->
  list_sum (map (fun a => S (g a)) l) <= S (length (join sep (map f l))).
Proof.
  intros Hsep Hall. induction Hall as [|a l Ha Hl IH]; [simpl; lia|].
  destruct l as [|b l].
  - rewrite join_map_one. simpl. lia.
  - rewrite join_map_more, !length_app.
    change (map ?h (a :: b :: l)) with (h a :: map h (b :: l)).
    change (list_sum (?x :: ?xs)) with (x + list_sum xs). cbn beta. lia.
Qed.

(** The fuel [parse] starts with is enough for what [stringify] prints. *)
Lemma size_le_length (v : value) :
  wf v = true -> forall indent, size v <= length (serialize indent v).
Proof.
  induction v as [| b | literal | s | items IH | members IH] using value_ind;
    intros Hwf indent.
  - simpl. lia.
  - destruct b; simpl; lia.
  - cbn [wf] in Hwf. destruct (number_literal_inv _ Hwf) as (_ & c & r & Hcr & _).
    cbn [serialize size]. rewrite Hcr. simpl. lia.
  - cbn [serialize size]. unfold quote. simpl. lia.
  - destruct items as [|x xs]; [simpl; lia|].
    cbn [wf] in Hwf.
    assert (Forall (fun y => size y <= length (serialize (indent ++ gap) y)) (x :: xs))
      as Hall.
    { apply Forall_forall. intros y Hy. rewrite Forall_forall in IH.
      apply (IH y Hy). rewrite forallb_forall in Hwf. apply Hwf.
      now apply list_elem_of_In. }
    pose proof (sum_le_join (serialize (indent ++ gap)) size
                  (","%char :: newline :: indent ++ gap) (x :: xs)
                  ltac:(simpl; lia) Hall) as Hsum.
    cbn [serialize size]. cbn [length]. rewrite !length_app. cbn [length].
    rewrite !length_app. lia.
  - destruct members as [|[k x] ms]; [simpl; lia|].
    cbn [wf] in Hwf. apply andb_true_iff in Hwf as [_ Hwf].
    assert (Forall (fun m => size (snd m)
                             <= length (quote (fst m) ++ ":"%char :: " "%char
                                        :: serialize (indent ++ gap) (snd m)))
              ((k, x) :: ms)) as Hall.
    { apply Forall_forall. intros m Hm. rewrite Forall_forall in IH.
      rewrite length_app. cbn [length].
      assert (size (snd m) <= length (serialize (indent ++ gap) (snd m))); [|lia].
      apply (IH m Hm). rewrite forallb_forall in Hwf. apply Hwf.
      now apply list_elem_of_In. }
    pose proof (sum_le_join _ (fun m => size (snd m))
                  (","%char :: newline :: indent ++ gap) ((k, x) :: ms)
                  ltac:(simpl; lia) Hall) as Hsum.
    cbn [serialize size]. cbn [length]. rewrite !length_app. cbn [length].
    rewrite !length_app. lia.
Qed.

Lemma parse_stringify (v : value) : wf v = true -> parse (stringify v) = Some v.
Proof.
  intros Hwf. unfold parse, stringify.
  rewrite list_ascii_of_string_of_list_ascii.
  pose proof (wf_reads_back v Hwf [] [] [] (S (length (serialize [] v)))
                eq_refl eq_refl I) as H.
  cbn [app] in H. rewrite app_nil_r in H. rewrite H; [reflexivity|].
  pose proof (size_le_length v Hwf []). lia.
Qed.

End JsonRoundTrip.

(** ** Export: the timestamp and the name of the file *)

Section ExportShape.
Local Open Scope list_scope.

Lemma digit_is_digit (n : Z) : Json.is_digit (JsDate.digit n) = true.
Proof.
  unfold JsDate.digit, Json.is_digit.
  assert (Z.to_nat (n mod 10) < 10) as Hk.
  { pose proof (Z.mod_pos_bound n 10 ltac:(lia)). lia. }
  rewrite nat_ascii_embedding by lia.
  apply andb_true_iff. split; apply Nat.leb_le; lia.
Qed.

Lemma shaped_app p1 t1 p2 t2 :
  Spec.shaped p1 t1 = true -> Spec.shaped p2 t2 = true ->
  Spec.shaped (p1 ++ p2) (t1 ++ t2) = true.
Proof.
  revert t1. induction p1 as [|p p1 IH]; intros [|c t1] H1 H2;
    try discriminate H1; [exact H2|].
  cbn [app Spec.shaped] in *. apply andb_true_iff in H1 as [Hc H1].
  now rewrite Hc, (IH t1 H1 H2).
Qed.

Lemma shaped_pad (width : nat) : forall n,
  Spec.shaped (repeat "d"%char width) (JsDate.pad width n) = true.
Proof.
  induction width as [|w IH]; intros n; [reflexivity|].
  cbn [JsDate.pad repeat]. rewrite List.repeat_cons.
  apply shaped_app; [apply IH|].
  cbn [Spec.shaped]. change (Ascii.eqb "d"%char "d"%char) with true. cbv iota.
  now rewrite digit_is_digit.
Qed.

Lemma shaped_cons p ps c cs :
  Ascii.eqb p "d"%char = false -> p = c -> Spec.shaped ps cs = true ->
  Spec.shaped (p :: ps) (c :: cs) = true.
Proof.
  intros Hp <- H. cbn [Spec.shaped]. now rewrite Hp, Ascii.eqb_refl, H.
Qed.

(** Month, day and time of day, which follow the year. *)
Lemma shaped_after_year (t : Z) :
  Spec.shaped (list_ascii_of_string "-dd-ddTdd:dd:dd.dddZ")
    ("-"%char :: JsDate.pad 2 (JsDate.MonthFromTime t)
     ++ "-"%char :: JsDate.pad 2 (JsDate.DateFromTime t)
     ++ "T"%char :: JsDate.pad 2 (JsDate.HourFromTime t)
     ++ ":"%char :: JsDate.pad 2 (JsDate.MinFromTime t)
     ++ ":"%char :: JsDate.pad 2 (JsDate.SecFromTime t)
     ++ "."%char :: JsDate.pad 3 (JsDate.msFromTime t)
     ++ ["Z"%char]) = true.
Proof.
  change (list_ascii_of_string "-dd-ddTdd:dd:dd.dddZ")
    with ("-"%char :: repeat "d"%char 2
          ++ "-"%char :: repeat "d"%char 2
          ++ "T"%char :: repeat "d"%char 2
          ++ ":"%char :: repeat "d"%char 2
          ++ ":"%char :: repeat "d"%char 2
          ++ "."%char :: repeat "d"%char 3
          ++ ["Z"%char]).
  repeat (apply shaped_cons; [reflexivity|reflexivity|];
          apply shaped_app; [apply shaped_pad|]).
  reflexivity.
Qed.

Lemma toISOString_shape (t : Z) : Spec.iso8601 (JsDate.toISOString t) = true.
Proof.
  unfold Spec.iso8601, JsDate.toISOString, JsDate.iso_text.
  rewrite list_ascii_of_string_of_list_ascii.
  pose proof (shaped_after_year t) as Hrest.
  unfold JsDate.year_text.
  destruct ((0 <=? JsDate.YearFromTime t)%Z && (JsDate.YearFromTime t <=? 9999)%Z).
  - apply orb_true_iff; left. apply orb_true_iff; left.
    apply (shaped_app (repeat "d"%char 4)); [apply shaped_pad | exact Hrest].
  - destruct (JsDate.YearFromTime t <? 0)%Z.
    + apply orb_true_iff; right.
      apply (shaped_app ("-"%char :: repeat "d"%char 6)); [|exact Hrest].
      apply shaped_cons; [reflexivity|reflexivity|apply shaped_pad].
    + apply orb_true_iff; left. apply orb_true_iff; right.
      apply (shaped_app ("+"%char :: repeat "d"%char 6)); [|exact Hrest].
      apply shaped_cons; [reflexivity|reflexivity|apply shaped_pad].
Qed.

Lemma before_sep (sep : ascii) (xs ys : list ascii) :
  forallb (fun c => negb (Ascii.eqb c sep)) xs = true ->
  Js.before sep (xs ++ sep :: ys) = xs.
Proof.
  induction xs as [|c xs IH]; cbn [app Js.before forallb].
  - now rewrite Ascii.eqb_refl.
  - intros H. apply andb_true_iff in H as [Hc Hxs].
    apply negb_true_iff in Hc. now rewrite Hc, (IH Hxs).
Qed.

Lemma shaped_date_no_T (xs : list ascii) :
  Spec.shaped (list_ascii_of_string "dddd-dd-dd") xs = true ->
  forallb (fun c => negb (Ascii.eqb c "T"%char)) xs = true.
Proof.
  assert (forall p c,
            (if Ascii.eqb p "d"%char then Json.is_digit c else Ascii.eqb p c) = true ->
            Ascii.eqb p "T"%char = false ->
            negb (Ascii.eqb c "T"%char) = true) as Hchar.
  { intros p c H Hp. destruct (Ascii.eqb p "d"%char).
    - destruct c as [[|] [|] [|] [|] [|] [|] [|] [|]]; try discriminate H; reflexivity.
    - apply Ascii.eqb_eq in H as <-. now rewrite Hp. }
  generalize (list_ascii_of_string "dddd-dd-dd")
    (eq_refl : forallb (fun p => negb (Ascii.eqb p "T"%char))
                 (list_ascii_of_string "dddd-dd-dd") = true).
  intros p. revert xs. induction p as [|q p IH]; intros [|c xs] Hp H;
    try discriminate H; [reflexivity|].
  cbn [Spec.shaped forallb] in *.
  apply andb_true_iff in H as [Hc H]. apply andb_true_iff in Hp as [Hq Hp].
  apply negb_true_iff in Hq.
  now rewrite (Hchar q c Hc Hq), (IH xs Hp H).
Qed.

(** The part of the timestamp before its [T] is the calendar date. *)
Lemma split_first_date (t : Z) :
  Spec.four_digit_year t ->
  Spec.iso_date (Js.split_first "T"%char (JsDate.toISOString t)) = true.
Proof.
  intros [Hlo Hhi]. unfold Spec.iso_date, Js.split_first, JsDate.toISOString.
  rewrite !list_ascii_of_string_of_list_ascii.
  unfold JsDate.iso_text, JsDate.year_text.
  assert ((0 <=? JsDate.YearFromTime t)%Z && (JsDate.YearFromTime t <=? 9999)%Z = true)
    as -> by (apply andb_true_iff; split; apply Z.leb_le; assumption).
  set (date := JsDate.pad 4 (JsDate.YearFromTime t)
               ++ "-"%char :: JsDate.pad 2 (JsDate.MonthFromTime t)
               ++ "-"%char :: JsDate.pad 2 (JsDate.DateFromTime t)).
  assert (Spec.shaped (list_ascii_of_string "dddd-dd-dd") date = true) as Hdate.
  { change (list_ascii_of_string "dddd-dd-dd")
      with (repeat "d"%char 4 ++ "-"%char :: repeat "d"%char 2
            ++ "-"%char :: repeat "d"%char 2).
    unfold date. apply shaped_app; [apply shaped_pad|].
    apply shaped_cons; [reflexivity|reflexivity|].
    apply shaped_app; [apply shaped_pad|].
    apply shaped_cons; [reflexivity|reflexivity|]. apply shaped_pad. }
  match goal with
  | |- Spec.shaped _ (Js.before _ ?text) = true =>
      replace text with (date ++ "T"%char :: JsDate.pad 2 (JsDate.HourFromTime t)
                         ++ ":"%char :: JsDate.pad 2 (JsDate.MinFromTime t)
                         ++ ":"%char :: JsDate.pad 2 (JsDate.SecFromTime t)
                         ++ "."%char :: JsDate.pad 3 (JsDate.msFromTime t)
                         ++ ["Z"%char])
  end.
  - rewrite before_sep; [exact Hdate | now apply shaped_date_no_T].
  - unfold date. rewrite <- !app_assoc. cbn [app]. rewrite <- !app_assoc.
    reflexivity.
Qed.

End ExportShape.


